(** * mysh: the command-line parser and the pipeline runner of [mysh.py]

    A shallow embedding of [parse_command_line] and [run_pipeline] (and of
    the string primitives and the [shlex] tokenizer they call), followed by
    the properties of the pipeline engine.

    Text is modelled by [string]: a sequence of code points below 256. *)

From Stdlib Require Import Ascii String List Bool Arith ZArith Lia.
From stdpp Require Import base option list strings gmap sorting.

Local Open Scope string_scope.
Local Open Scope list_scope.
Local Open Scope nat_scope.

(** ** Exceptions and fallible computations *)

(** The exception classes the handlers of [run_pipeline] and [main] tell
    apart. [SystemExit] and [KeyboardInterrupt] derive from [BaseException]
    only; the three others are subclasses of [Exception]. The argument is
    [str(e)]. *)
Inductive exn : Type :=
| SystemExit
| KeyboardInterrupt
| FileNotFoundError (msg : string)
| ValueError (msg : string)
| OtherError (msg : string).

(** [isinstance(e, Exception)]. *)
Definition is_Exception (e : exn) : bool :=
  match e with
  | SystemExit | KeyboardInterrupt => false
  | FileNotFoundError _ | ValueError _ | OtherError _ => true
  end.

(** [str(e)]. *)
Definition exn_str (e : exn) : string :=
  match e with
  | SystemExit => "0"
  | KeyboardInterrupt => EmptyString
  | FileNotFoundError m | ValueError m | OtherError m => m
  end.

Inductive res (A : Type) : Type :=
| Ok (a : A)
| Raise (e : exn).
Arguments Ok {A} a.
Arguments Raise {A} e.

Definition res_bind {A B : Type} (m : res A) (k : A -> res B) : res B :=
  match m with
  | Ok a => k a
  | Raise e => Raise e
  end.

Definition res_map {A B : Type} (f : A -> B) (m : res A) : res B :=
  res_bind m (fun a => Ok (f a)).

Notation "x <-- m ;; k" := (res_bind m (fun x => k))
  (at level 100, m at next level, right associativity).

(** ** The [str] methods the parser uses *)

Module Str.

(** [c.isspace()] for a code point below 256: TAB..CR, FS..US, SPACE, NEL
    and NBSP. *)
Definition isspace (c : ascii) : bool :=
  let n := nat_of_ascii c in
  ((9 <=? n) && (n <=? 13)) || ((28 <=? n) && (n <=? 32))
  || (n =? 133) || (n =? 160).

(** [s.lstrip()]. *)
Fixpoint lstrip (s : string) : string :=
  match s with
  | EmptyString => EmptyString
  | String c s' => if isspace c then lstrip s' else s
  end.

(** [s.rstrip()]. *)
Fixpoint rstrip (s : string) : string :=
  match s with
  | EmptyString => EmptyString
  | String c s' =>
      match rstrip s' with
      | EmptyString => if isspace c then EmptyString else String c EmptyString
      | r => String c r
      end
  end.

(** [s.strip()]. *)
Definition strip (s : string) : string := rstrip (lstrip s).

(** [s.split(sep)] for a one-character separator: one more segment than
    there are separators, empty segments kept. *)
Fixpoint split_on (sep : ascii) (s : string) : list string :=
  match s with
  | EmptyString => [EmptyString]
  | String c s' =>
      if Ascii.eqb c sep then EmptyString :: split_on sep s'
      else match split_on sep s' with
           | seg :: segs => String c seg :: segs
           | [] => [String c EmptyString]
           end
  end.

(** [s.removeprefix(p)] when [s.startswith(p)]. *)
Fixpoint strip_prefix (p s : string) : option string :=
  match p, s with
  | EmptyString, _ => Some s
  | String a p', String b s' =>
      if Ascii.eqb a b then strip_prefix p' s' else None
  | String _ _, EmptyString => None
  end.

(** [s.split(sep, 1)] when [sep in s]: the text before the first occurrence
    of [sep] and the text after it; [None] when [sep not in s]. *)
Fixpoint cut (sep s : string) : option (string * string) :=
  match strip_prefix sep s with
  | Some rest => Some (EmptyString, rest)
  | None =>
      match s with
      | EmptyString => None
      | String c s' =>
          match cut sep s' with
          | Some (before, rest) => Some (String c before, rest)
          | None => None
          end
      end
  end.

(** [sep in s]. *)
Definition contains (sep s : string) : bool :=
  match cut sep s with Some _ => true | None => false end.

(** [s.split()]: the maximal runs of non-whitespace characters. *)
Fixpoint split_ws (s : string) : list string :=
  match s with
  | EmptyString => []
  | String c s' =>
      if isspace c then split_ws s'
      else match s' with
           | EmptyString => [String c EmptyString]
           | String d _ =>
               if isspace d then String c EmptyString :: split_ws s'
               else match split_ws s' with
                    | w :: ws => String c w :: ws
                    | [] => [String c EmptyString]
                    end
           end
  end.

(** [sep.join(l)]. *)
Fixpoint join (sep : string) (l : list string) : string :=
  match l with
  | [] => EmptyString
  | [x] => x
  | x :: l' => x +:+ sep +:+ join sep l'
  end.

(** [c in s] for a character. *)
Fixpoint mem (c : ascii) (s : string) : bool :=
  match s with
  | EmptyString => false
  | String d s' => Ascii.eqb c d || mem c s'
  end.

(** Number of occurrences of a character. *)
Fixpoint count (c : ascii) (s : string) : nat :=
  match s with
  | EmptyString => 0
  | String d s' => (if Ascii.eqb c d then 1 else 0) + count c s'
  end.

(** Every character of [s] satisfies [P]. *)
Fixpoint all (P : ascii -> bool) (s : string) : bool :=
  match s with
  | EmptyString => true
  | String c s' => P c && all P s'
  end.

(** [bool(s)]: a string is truthy when it is not empty. *)
Definition truthy (s : string) : bool :=
  match s with EmptyString => false | String _ _ => true end.

End Str.

(** ** [shlex.split(s)]: POSIX mode, [whitespace_split], no commenters *)

Module Shlex.

(** [shlex.whitespace]. *)
Definition whitespace : string :=
  String " " (String "009" (String "013" (String "010" EmptyString))).
(** [shlex.quotes], [shlex.escape] and [shlex.escapedquotes]. *)
Definition quotes : string := String "'" (String "034" EmptyString).
Definition escape : ascii := "\".
Definition escapedquotes : string := String "034" EmptyString.

(** [shlex.state]: [' '], ['a'], a quote character, or the escape
    character together with [escapedstate], the state to come back to. *)
Inductive lex_state : Type :=
| InWhitespace
| InWord
| InQuote (q : ascii)
| InEscape (escapedstate : lex_state).

(** What [read_token] returns at a [break]: the token, unless it is empty
    and no quote was seen. *)
Definition emit (token : string) (quoted : bool) : list string :=
  if Str.truthy token || quoted then [token] else [].

Definition snoc (token : string) (c : ascii) : string :=
  token +:+ String c EmptyString.

(** The calls of [read_token] until the end of input, one step per
    character read; [state] survives from one call to the next, [token] and
    [quoted] start afresh after each token. *)
Fixpoint read_tokens (s : string) (state : lex_state) (token : string)
    (quoted : bool) : res (list string) :=
  match s with
  | EmptyString =>
      match state with
      | InWhitespace | InWord => Ok (emit token quoted)
      | InQuote _ => Raise (ValueError "No closing quotation")
      | InEscape _ => Raise (ValueError "No escaped character")
      end
  | String c s' =>
      match state with
      | InWhitespace =>
          if Str.mem c whitespace then
            if Str.truthy token || quoted
            then res_map (cons token) (read_tokens s' InWhitespace EmptyString false)
            else read_tokens s' InWhitespace token quoted
          else if Ascii.eqb c escape then
            read_tokens s' (InEscape InWord) token quoted
          else if Str.mem c quotes then
            read_tokens s' (InQuote c) token quoted
          else
            read_tokens s' InWord (String c EmptyString) quoted
      | InWord =>
          if Str.mem c whitespace then
            if Str.truthy token || quoted
            then res_map (cons token) (read_tokens s' InWhitespace EmptyString false)
            else read_tokens s' InWhitespace token quoted
          else if Str.mem c quotes then
            read_tokens s' (InQuote c) token quoted
          else if Ascii.eqb c escape then
            read_tokens s' (InEscape InWord) token quoted
          else
            read_tokens s' InWord (snoc token c) quoted
      | InQuote q =>
          if Ascii.eqb c q then
            read_tokens s' InWord token true
          else if Ascii.eqb c escape && Str.mem q escapedquotes then
            read_tokens s' (InEscape (InQuote q)) token true
          else
            read_tokens s' (InQuote q) (snoc token c) true
      | InEscape escapedstate =>
          let token :=
            match escapedstate with
            | InQuote q =>
                if negb (Ascii.eqb c escape) && negb (Ascii.eqb c q)
                then snoc token escape else token
            | _ => token
            end in
          read_tokens s' escapedstate (snoc token c) quoted
      end
  end.

Definition split (s : string) : res (list string) :=
  read_tokens s InWhitespace EmptyString false.

(** The characters [shlex.quote] leaves bare: those that do not match
    [[^\w@%+=:,./-]] with [re.ASCII]. *)
Definition safe_char (c : ascii) : bool :=
  let n := nat_of_ascii c in
  ((48 <=? n) && (n <=? 57)) || ((65 <=? n) && (n <=? 90))
  || ((97 <=? n) && (n <=? 122)) || Str.mem c "_@%+=:,./-".

(** [s.replace(q, r)] for [q] the single quote and [r] the five characters
    single quote, double quote, single quote, double quote, single
    quote. *)
Fixpoint escape_quotes (s : string) : string :=
  match s with
  | EmptyString => EmptyString
  | String c s' =>
      if Ascii.eqb c "'"
      then String "'" (String "034" (String "'" (String "034" (String "'"
             (escape_quotes s')))))
      else String c (escape_quotes s')
  end.

(** [shlex.quote(s)]. *)
Definition quote (s : string) : string :=
  if negb (Str.truthy s) then "''"
  else if Str.all safe_char s then s
  else String "'" (escape_quotes s +:+ "'").

End Shlex.

(** ** [parse_command_line] *)

(** A stage: [(argv, out_path, append)]. *)
Definition stage : Type := list string * option string * bool.

(** [rest.strip().split()[0] if rest.strip() else None]. The subscript
    cannot fail: a non-empty stripped string has a first word. *)
Definition redirect_target (rest : string) : res (option string) :=
  if Str.truthy (Str.strip rest) then
    match Str.split_ws (Str.strip rest) with
    | w :: _ => Ok (Some w)
    | [] => Raise (OtherError "list index out of range")
    end
  else Ok None.

(** The body of the loop of [parse_command_line], for one stripped
    segment. *)
Definition parse_segment (part : string) : res stage :=
  match Str.cut ">>" part with
  | Some (part, rest) =>
      out_path <-- redirect_target rest ;;
      argv <-- Shlex.split part ;;
      Ok (argv, out_path, true)
  | None =>
      match Str.cut ">" part with
      | Some (part, rest) =>
          out_path <-- redirect_target rest ;;
          argv <-- Shlex.split part ;;
          Ok (argv, out_path, false)
      | None =>
          argv <-- Shlex.split part ;;
          Ok (argv, None, false)
      end
  end.

(** [for part in parts: ... pipeline.append(...)]: the first exception
    ends the loop. *)
Fixpoint parse_parts (parts : list string) : res (list stage) :=
  match parts with
  | [] => Ok []
  | part :: parts' =>
      st <-- parse_segment part ;;
      res_map (cons st) (parse_parts parts')
  end.

Definition parse_command_line (line : string) : res (list stage) :=
  parse_parts (map Str.strip (Str.split_on "|" line)).

(** Example lines are written with a backquote where the line has a double
    quote. *)
Fixpoint py (s : string) : string :=
  match s with
  | EmptyString => EmptyString
  | String c s' => String (if Ascii.eqb c "`" then "034"%char else c) (py s')
  end.

(** ** The builtin registry *)

(** The handler functions. *)
Inductive builtin : Type :=
| builtin_pwd | builtin_cd | builtin_ls | builtin_cat | builtin_head
| builtin_tail | builtin_grep | builtin_cp | builtin_mv | builtin_rm
| builtin_mkdir | builtin_rmdir | builtin_touch | builtin_find
| builtin_info | builtin_history | builtin_clear | builtin_exit
| builtin_whoami | builtin_elevate.

Definition BUILTINS : gmap string builtin :=
  list_to_map
    [ ("pwd", builtin_pwd); ("cd", builtin_cd); ("ls", builtin_ls);
      ("cat", builtin_cat); ("head", builtin_head); ("tail", builtin_tail);
      ("grep", builtin_grep); ("cp", builtin_cp); ("mv", builtin_mv);
      ("rm", builtin_rm); ("mkdir", builtin_mkdir);
      ("rmdir", builtin_rmdir); ("touch", builtin_touch);
      ("find", builtin_find); ("info", builtin_info);
      ("history", builtin_history); ("clear", builtin_clear);
      ("exit", builtin_exit); ("quit", builtin_exit);
      ("whoami", builtin_whoami); ("elevate", builtin_elevate);
      ("admin", builtin_elevate); ("sudo", builtin_elevate) ].

(** ** The machine the runner works on *)

Section Machine.

(** What the model leaves abstract of the operating system: working
    directory, environment, permissions, processes. *)
Context {X : Type}.

(** The operating system: the text of every file, by resolved path, and
    the rest. *)
Record os_state : Type := OsState {
  files : gmap string string;
  hidden : X
}.

(** What a call of a handler does: the text it prints on [sys.stdout], its
    [eprint] calls, the operating system it leaves, and the exception it
    raises, if any. What a handler sends to the standard output of the
    process past [sys.stdout] ([builtin_clear] through [os.system],
    [builtin_elevate] through [subprocess.run]) is not recorded. *)
Record effect : Type := Effect {
  printed : string;
  diagnostics : list string;
  os_after : os_state;
  raised : option exn
}.

(** The behaviour the runner takes from its environment. *)
Record Env : Type := {
  (** the branches of the handlers that call the operating system *)
  os_call : builtin -> list string -> option string -> os_state -> effect;
  (** [subprocess.Popen(argv, ...)] followed by
      [communicate(input=data, timeout=30)]: [(out_text, err)] or the
      exception raised *)
  popen : list string -> option string -> os_state ->
          res (string * string) * os_state;
  (** the file that [open(os.path.expanduser(out_path), ...)] names *)
  resolve : os_state -> string -> string;
  (** [open(target, mode)] then [f.write(text)] failing: the exception and
      the operating system left behind *)
  write_error : os_state -> string -> bool -> string ->
                option (exn * os_state)
}.

(** What [sys.stdout] is bound to: the terminal or a [StringIO] object. *)
Inductive sink : Type :=
| Terminal
| StringIO (id : nat).

Record world : Type := World {
  os : os_state;
  sys_stdout : sink;
  terminal : string;          (* the text written there through sys.stdout *)
  buffers : list string;      (* the StringIO objects, by allocation order *)
  sys_stderr : list string;   (* one entry per eprint call *)
  executed : list (list string) (* ghost: the argv of every command run *)
}.

Definition set_os (o : os_state) (w : world) : world :=
  World o (sys_stdout w) (terminal w) (buffers w) (sys_stderr w) (executed w).

Definition set_stdout (k : sink) (w : world) : world :=
  World (os w) k (terminal w) (buffers w) (sys_stderr w) (executed w).

(** [buf = StringIO()]. *)
Definition new_buffer (w : world) : nat * world :=
  (length (buffers w),
   World (os w) (sys_stdout w) (terminal w) (buffers w ++ [EmptyString])
         (sys_stderr w) (executed w)).

(** [buf.getvalue()]. *)
Definition getvalue (id : nat) (w : world) : string :=
  default EmptyString (buffers w !! id).

(** [sys.stdout.write(text)], when the write succeeds. *)
Definition write_stdout (text : string) (w : world) : world :=
  match sys_stdout w with
  | Terminal =>
      World (os w) (sys_stdout w) (terminal w +:+ text) (buffers w)
            (sys_stderr w) (executed w)
  | StringIO id =>
      World (os w) (sys_stdout w) (terminal w)
            (alter (fun b => b +:+ text) id (buffers w))
            (sys_stderr w) (executed w)
  end.

(** [eprint(line)], and several of them. *)
Definition eprints (lines : list string) (w : world) : world :=
  World (os w) (sys_stdout w) (terminal w) (buffers w)
        (sys_stderr w ++ lines) (executed w).

Definition eprint (line : string) (w : world) : world := eprints [line] w.

Definition log_run (argv : list string) (w : world) : world :=
  World (os w) (sys_stdout w) (terminal w) (buffers w) (sys_stderr w)
        (executed w ++ [argv]).

(** ** The handlers *)

Definition returns (o : os_state) : effect := Effect EmptyString [] o None.
Definition prints (text : string) (o : os_state) : effect :=
  Effect text [] o None.
Definition complains (line : string) (o : os_state) : effect :=
  Effect EmptyString [line] o None.

(** [BUILTINS[cmd](args, stdin=data)]. [builtin_exit], the standard-input
    branch of [builtin_cat] and the argument checks are the source's; every
    branch that calls the operating system is [os_call]. *)
Definition call_builtin (E : Env) (b : builtin) (args : list string)
    (stdin : option string) (o : os_state) : effect :=
  match b with
  | builtin_exit => Effect EmptyString [] o (Some SystemExit)
  | builtin_cat =>
      match args, stdin with
      | [], Some text => prints text o
      | _, _ => os_call E b args stdin o
      end
  | builtin_grep =>
      match args with
      | [] => complains "grep: missing pattern" o
      | _ => os_call E b args stdin o
      end
  | builtin_cp =>
      if length args <? 2 then complains "cp: missing arguments" o
      else os_call E b args stdin o
  | builtin_mv =>
      if length args <? 2 then complains "mv: missing arguments" o
      else os_call E b args stdin o
  | builtin_rm =>
      match args with
      | [] => complains "rm: missing args" o
      | _ => os_call E b args stdin o
      end
  | builtin_mkdir =>
      match args with
      | [] => complains "mkdir: missing args" o
      | _ => os_call E b args stdin o
      end
  | builtin_rmdir =>
      match args with
      | [] => complains "rmdir: missing args" o
      | _ => os_call E b args stdin o
      end
  | builtin_touch =>
      match args with
      | [] => complains "touch: missing args" o
      | _ => os_call E b args stdin o
      end
  | _ => os_call E b args stdin o
  end.

(** ** [run_pipeline] *)

(** How the body of the loop ends: it goes on to the next stage with the
    text to pass along, it executes [return], or an exception leaves
    [run_pipeline]. *)
Inductive control : Type :=
| Continue (data : option string)
| Return
| Propagate (e : exn).

(** The first half of the loop body: run the command and capture its
    output. [inl out_text] when the command completed. *)
Definition capture (E : Env) (cmd : string) (args : list string)
    (data : option string) (w : world) : (string + control) * world :=
  match BUILTINS !! cmd with
  | Some handler =>
      let old_stdout := sys_stdout w in
      let '(buf, w) := new_buffer w in
      let w := set_stdout (StringIO buf) w in
      let eff := call_builtin E handler args data (os w) in
      let w := write_stdout (printed eff)
                 (eprints (diagnostics eff) (set_os (os_after eff) w)) in
      match raised eff with
      | Some SystemExit =>
          let w := set_stdout old_stdout w in
          (inr (Propagate SystemExit), w)
      | Some e =>
          if is_Exception e then
            let w := set_stdout old_stdout w in
            let w := eprint (cmd +:+ ": error: " +:+ exn_str e) w in
            (inr Return, w)
          else (inr (Propagate e), w)
      | None =>
          let w := set_stdout old_stdout w in
          (inl (getvalue buf w), w)
      end
  | None =>
      match popen E (cmd :: args) data (os w) with
      | (Ok (out_text, err), o) =>
          let w := set_os o w in
          let w := if Str.truthy err then eprint (Str.strip err) w else w in
          (inl out_text, w)
      | (Raise e, o) =>
          let w := set_os o w in
          match e with
          | FileNotFoundError _ =>
              (inr Return, eprint (cmd +:+ ": command not found") w)
          | _ =>
              if is_Exception e
              then (inr Return, eprint (cmd +:+ ": error: " +:+ exn_str e) w)
              else (inr (Propagate e), w)
          end
      end
  end.

(** [with open(os.path.expanduser(out_path), mode) as f: f.write(out_text)]:
    the exception raised, if any, and the operating system afterwards. Mode
    ["a"] writes after the text the file has, mode ["w"] replaces it; both
    create the file. *)
Definition write_file (E : Env) (out_path : string) (append : bool)
    (out_text : string) (o : os_state) : option exn * os_state :=
  let target := resolve E o out_path in
  match write_error E o target append out_text with
  | Some (e, o') => (Some e, o')
  | None =>
      let old := default EmptyString (files o !! target) in
      (None,
       OsState (<[target := if append then old +:+ out_text else out_text]>
                  (files o))
               (hidden o))
  end.

(** The second half of the loop body: redirect or pass along. *)
Definition deliver (E : Env) (out_path : option string) (append : bool)
    (out_text : string) (w : world) : control * world :=
  match out_path with
  | Some path =>
      if Str.truthy path then
        match write_file E path append out_text (os w) with
        | (None, o) => (Continue (Some EmptyString), set_os o w)
        | (Some e, o) =>
            if is_Exception e
            then (Continue (Some EmptyString),
                  eprint ("redirection error: " +:+ exn_str e) (set_os o w))
            else (Propagate e, set_os o w)
        end
      else (Continue (Some out_text), w)
  | None => (Continue (Some out_text), w)
  end.

(** The body of [for i, (argv, out_path, append) in enumerate(pipeline)]. *)
Definition run_stage (E : Env) (st : stage) (data : option string)
    (w : world) : control * world :=
  let '(argv, out_path, append) := st in
  match argv with
  | [] => (Continue data, w)
  | cmd :: args =>
      match capture E cmd args data (log_run argv w) with
      | (inl out_text, w) => deliver E out_path append out_text w
      | (inr c, w) => (c, w)
      end
  end.

Fixpoint run_stages (E : Env) (pipeline : list stage) (data : option string)
    (w : world) : control * world :=
  match pipeline with
  | [] => (Continue data, w)
  | st :: pipeline' =>
      match run_stage E st data w with
      | (Continue data', w') => run_stages E pipeline' data' w'
      | stop => stop
      end
  end.

(** How a call ends. *)
Inductive outcome : Type :=
| Returned
| Raised (e : exn).

Definition run_pipeline (E : Env) (pipeline : list stage) (w : world)
    : outcome * world :=
  match run_stages E pipeline None w with
  | (Continue data, w) =>
      match data with
      | Some text => (Returned, if Str.truthy text then write_stdout text w else w)
      | None => (Returned, w)
      end
  | (Return, w) => (Returned, w)
  | (Propagate e, w) => (Raised e, w)
  end.

(** ** One turn of the loop of [main] *)

Definition newline : string := String "010" EmptyString.

(** [sorted(l)] for strings: by code points. *)
Definition str_le (a b : string) : Prop := String.leb a b = true.

#[local] Instance str_le_dec (a b : string) : Decision (str_le a b).
Proof. unfold str_le. apply _. Defined.

Definition sorted (l : list string) : list string := merge_sort str_le l.

Definition help_lines : list string :=
  [ "Builtins: " +:+ Str.join ", " (sorted (map fst (map_to_list BUILTINS)))
      +:+ newline;
    "Supports: pipes | and redirection > >>, tab completion, history (saved)."
      +:+ newline ].

(** Whether the [while True] loop takes another line or ends. *)
Inductive loop : Type :=
| NextLine
| Break.

(** The body of the loop, once [session.prompt] has returned [line]. *)
Definition main_step (E : Env) (line : string) (w : world) : loop * world :=
  if negb (Str.truthy (Str.strip line)) then (NextLine, w)
  else if String.eqb (Str.strip line) "help" then
    (NextLine, fold_left (fun w l => write_stdout l w) help_lines w)
  else
    let '(r, w) :=
      match parse_command_line line with
      | Ok pipeline => run_pipeline E pipeline w
      | Raise e => (Raised e, w)
      end in
    match r with
    | Returned => (NextLine, w)
    | Raised KeyboardInterrupt => (NextLine, write_stdout ("^C" +:+ newline) w)
    | Raised SystemExit => (Break, w)
    | Raised e => (NextLine, eprint ("Shell error: " +:+ exn_str e) w)
    end.

End Machine.

Arguments os_state : clear implicits.
Arguments effect : clear implicits.
Arguments Env : clear implicits.
Arguments world : clear implicits.

(** ** A small environment to run the model in *)

Module Demo.

(** [pwd] prints a directory, [touch] is refused by the file system,
    [find] is interrupted from the keyboard; the other handlers do nothing. *)
Definition demo_os_call (b : builtin) (args : list string)
    (stdin : option string) (o : os_state unit) : effect unit :=
  match b with
  | builtin_pwd => prints ("/home/me" +:+ newline) o
  | builtin_touch =>
      Effect EmptyString [] o (Some (OtherError "[Errno 13] Permission denied"))
  | builtin_find => Effect EmptyString [] o (Some KeyboardInterrupt)
  | _ => returns o
  end.

(** The only programs are [echo] and [warn]; [locked] exists but may not be
    executed. *)
Definition demo_popen (argv : list string) (data : option string)
    (o : os_state unit) : res (string * string) * os_state unit :=
  match argv with
  | "echo" :: args => (Ok (Str.join " " args +:+ newline, EmptyString), o)
  | "warn" :: args => (Ok (EmptyString, Str.join " " args +:+ newline), o)
  | "locked" :: _ => (Raise (OtherError "[Errno 13] Permission denied: 'locked'"), o)
  | _ => (Raise (FileNotFoundError "[Errno 2] No such file or directory"), o)
  end.

(** Every path can be written but [/ro]. *)
Definition demo_write_error (o : os_state unit) (target : string)
    (append : bool) (text : string) : option (exn * os_state unit) :=
  if String.eqb target "/ro"
  then Some (OtherError "[Errno 30] Read-only file system: '/ro'", o)
  else None.

Definition env : Env unit :=
  {| os_call := demo_os_call;
     popen := demo_popen;
     resolve := fun _ path => path;
     write_error := demo_write_error |}.

Definition boot : world unit :=
  World (OsState ∅ tt) Terminal EmptyString [] [] [].

(** What the line [a || b] is parsed into. *)
Definition doubled : list stage :=
  [(["a"], None, false); ([], None, false); (["b"], None, false)].

(** What the line [echo hi | > out.txt | cat] is parsed into. *)
Definition bare_redirection : list stage :=
  [(["echo"; "hi"], None, false); ([], Some "out.txt", false);
   (["cat"], None, false)].

End Demo.

(** ** Notions the statements use *)

(** The stages the spec counts: the pipe-separated segments that are not
    empty once stripped. *)
Definition nonempty_segments (line : string) : list string :=
  filter (fun seg => Str.truthy (Str.strip seg) = true) (Str.split_on "|" line).

(** Every stage of [post] that names a command is run when the pipeline
    [pre ++ bad :: post] is run from [w]. *)
Definition later_stages_run {X} (E : Env X) (pre : list stage) (bad : stage)
    (post : list stage) (w : world X) : Prop :=
  forall st : stage,
    In st post -> st.1.1 <> [] ->
    In st.1.1 (executed (snd (run_pipeline E (pre ++ bad :: post) w))).

(** The world after the command [argv] has been stopped by an exception of
    its launch: one more diagnostic, one more command run, nothing else. *)
Definition after_failed_launch {X} (o : os_state X) (d : string)
    (argv : list string) (w : world X) : world X :=
  World o (sys_stdout w) (terminal w) (buffers w) (sys_stderr w ++ [d])
        (executed w ++ [argv]).

(** The world after [exit] has been called as the command [argv]: the
    buffer allocated for it stays behind, empty. *)
Definition after_exit {X} (argv : list string) (w : world X) : world X :=
  World (os w) (sys_stdout w) (terminal w) (buffers w ++ [EmptyString])
        (sys_stderr w) (executed w ++ [argv]).

(** Modelled from the spec: the textual reconstruction of a pipeline, which
    the source does not have. Each stage is its arguments, quoted by
    [shlex.quote] and joined with spaces, followed by the redirection
    operator and the target when the stage has a target; the stages are
    joined with pipes. *)
Definition stage_text (st : stage) : string :=
  let '(argv, out_path, append) := st in
  Str.join " " (map Shlex.quote argv)
  +:+ match out_path with
      | Some path => (if append then " >> " else " > ") +:+ path
      | None => EmptyString
      end.

Definition reconstruct (p : list stage) : string :=
  Str.join " | " (map stage_text p).

(** A stage without a target has no redirection: its mode does not
    count. *)
Definition without_idle_mode (st : stage) : stage :=
  let '(argv, out_path, append) := st in
  match out_path with
  | Some _ => st
  | None => (argv, None, false)
  end.

(** Characters other than [>], other than the pipe, and other than
    whitespace. *)
Definition no_gt (c : ascii) : bool := negb (Ascii.eqb c ">").
Definition no_pipe (c : ascii) : bool := negb (Ascii.eqb c "|").
Definition no_space (c : ascii) : bool := negb (Str.isspace c).

(** No argument of the stage contains [>]. *)
Definition args_without_gt (st : stage) : Prop :=
  Forall (fun arg => Str.all no_gt arg = true) st.1.1.

(** No two [>] in a row. *)
Fixpoint no_gtgt (s : string) : bool :=
  match s with
  | String a (String b _ as s') =>
      negb (Ascii.eqb a ">" && Ascii.eqb b ">") && no_gtgt s'
  | _ => true
  end.

(** The last character, if any, is not whitespace. *)
Fixpoint ends_tight (s : string) : bool :=
  match s with
  | EmptyString => true
  | String c s' =>
      match s' with
      | EmptyString => negb (Str.isspace c)
      | String _ _ => ends_tight s'
      end
  end.

(** What every stage that [parse_command_line] returns satisfies: no pipe
    in the arguments; a target is one word without a pipe, and without [>>]
    in truncate mode. *)
Definition target_ok (append : bool) (path : string) : Prop :=
  Str.truthy path = true
  /\ Str.all no_space path = true
  /\ Str.all no_pipe path = true
  /\ (append = false -> no_gtgt path = true).

Definition parsed_stage (st : stage) : Prop :=
  Forall (fun arg => Str.all no_pipe arg = true) st.1.1
  /\ match st.1.2 with
     | Some path => target_ok st.2 path
     | None => True
     end.

(** One step of the tokenizer on a known character. *)
Ltac lex_step :=
  cbn [Shlex.read_tokens Str.mem Shlex.whitespace Shlex.quotes Shlex.escape
       Shlex.escapedquotes Ascii.eqb Bool.eqb andb orb negb].

(** Whether [c] occurs in [s] between a quote and the quote that closes
    it, by the quoting rules of the tokenizer. [opened] is the quote that is
    open, if any, and [seen] tells whether [c] has occurred since. *)
Fixpoint inside_quotes (c : ascii) (s : string) (opened : option ascii)
    (seen : bool) : bool :=
  match s with
  | EmptyString => false
  | String d s' =>
      match opened with
      | None =>
          if Ascii.eqb d Shlex.escape then
            match s' with
            | String _ s'' => inside_quotes c s'' None false
            | EmptyString => false
            end
          else if Str.mem d Shlex.quotes then inside_quotes c s' (Some d) false
          else inside_quotes c s' None false
      | Some q =>
          if Ascii.eqb d q then seen || inside_quotes c s' None false
          else if Ascii.eqb d Shlex.escape && Str.mem q Shlex.escapedquotes then
            match s' with
            | String _ s'' => inside_quotes c s'' (Some q) seen
            | EmptyString => false
            end
          else inside_quotes c s' (Some q) (seen || Ascii.eqb d c)
      end
  end.

(** The only exceptions of the tokenizer. *)
Definition lexical_error (e : exn) : Prop :=
  e = ValueError "No closing quotation" \/ e = ValueError "No escaped character".

(** Whether the quoting of [s] is complete, by the quoting rules of the
    tokenizer: every quote is closed by the same quote character, and no
    backslash that escapes is the last character. [opened] is the quote
    that is open, if any. A backslash escapes the next character outside
    quotes and between double quotes; between single quotes it is an
    ordinary character. *)
Fixpoint quotes_closed (s : string) (opened : option ascii) : bool :=
  match s with
  | EmptyString =>
      match opened with
      | None => true
      | Some _ => false
      end
  | String d s' =>
      match opened with
      | None =>
          if Ascii.eqb d Shlex.escape then
            match s' with
            | String _ s'' => quotes_closed s'' None
            | EmptyString => false
            end
          else if Str.mem d Shlex.quotes then quotes_closed s' (Some d)
          else quotes_closed s' None
      | Some q =>
          if Ascii.eqb d q then quotes_closed s' None
          else if Ascii.eqb d Shlex.escape && Str.mem q Shlex.escapedquotes then
            match s' with
            | String _ s'' => quotes_closed s'' (Some q)
            | EmptyString => false
            end
          else quotes_closed s' (Some q)
      end
  end.

(** The same for a text that the tokenizer starts to read in the state
    [state]. *)
Fixpoint closed_from (state : Shlex.lex_state) (s : string) : bool :=
  match state with
  | Shlex.InWhitespace | Shlex.InWord => quotes_closed s None
  | Shlex.InQuote q => quotes_closed s (Some q)
  | Shlex.InEscape escapedstate =>
      match s with
      | String _ s' => closed_from escapedstate s'
      | EmptyString => false
      end
  end.

(** The text of a stripped segment that goes to the tokenizer: what comes
    before the first [>>]; without [>>], what comes before the first [>];
    without [>], the segment. *)
Definition command_text (part : string) : string :=
  match Str.cut ">>" part with
  | Some (before, _) => before
  | None =>
      match Str.cut ">" part with
      | Some (before, _) => before
      | None => part
      end
  end.

(** The quoting of the command text of every pipe-separated segment of the
    line is complete. *)
Definition well_quoted (line : string) : bool :=
  forallb (fun seg => quotes_closed (command_text (Str.strip seg)) None)
          (Str.split_on "|" line).

(** Whether a computation returns. *)
Definition is_Ok {A : Type} (r : res A) : bool :=
  match r with
  | Ok _ => true
  | Raise _ => false
  end.

(** The world after the first write of a redirection. *)
Definition after_write {X} (E : Env X) (path : string) (append : bool)
    (out_text : string) (w : world X) : world X :=
  set_os (snd (write_file E path append out_text (os w))) w.

(** The world after a handler has run with its output captured: the
    buffer allocated for the call holds what the handler printed. *)
Definition after_handler {X} (eff : effect X) (w : world X) : world X :=
  World (os_after eff) (sys_stdout w) (terminal w)
        (buffers w ++ [printed eff]) (sys_stderr w ++ diagnostics eff)
        (executed w).

(** ** The handlers that work on the piped text *)

(** More [str] methods and list slices, for [builtin_head], [builtin_tail]
    and [builtin_grep]. *)
Module Py.

(** [s.startswith(p)]. *)
Definition startswith (p s : string) : bool :=
  match Str.strip_prefix p s with Some _ => true | None => false end.

(** [s.lstrip(chars)]. *)
Fixpoint lstrip_chars (chars s : string) : string :=
  match s with
  | EmptyString => EmptyString
  | String c s' => if Str.mem c chars then lstrip_chars chars s' else s
  end.

(** The line boundaries of [str.splitlines] below 256: LF, VT, FF, CR, FS,
    GS, RS and NEL. *)
Definition linebreak (c : ascii) : bool :=
  let n := nat_of_ascii c in
  ((10 <=? n) && (n <=? 13)) || ((28 <=? n) && (n <=? 30)) || (n =? 133).

(** [s.splitlines(keepends)]: CR LF is one boundary; no empty line after a
    final boundary. *)
Fixpoint splitlines (keepends : bool) (s : string) : list string :=
  match s with
  | EmptyString => []
  | String c s' =>
      if linebreak c then
        match s' with
        | String d s'' =>
            if Ascii.eqb c "013" && Ascii.eqb d "010"
            then (if keepends then String c (String d EmptyString)
                  else EmptyString) :: splitlines keepends s''
            else (if keepends then String c EmptyString else EmptyString)
                 :: splitlines keepends s'
        | EmptyString =>
            [if keepends then String c EmptyString else EmptyString]
        end
      else
        match splitlines keepends s' with
        | line :: lines => String c line :: lines
        | [] => [String c EmptyString]
        end
  end.

(** A character that ends no line. *)
Definition no_break (c : ascii) : bool := negb (linebreak c).

(** [l[:n]] and [l[k:]]: a negative index counts from the end, an index out
    of range is clipped. *)
Definition slice_to {A : Type} (n : Z) (l : list A) : list A :=
  if (0 <=? n)%Z then take (Z.to_nat n) l
  else take (Z.to_nat (Z.of_nat (length l) + n)) l.

Definition slice_from {A : Type} (k : Z) (l : list A) : list A :=
  if (0 <=? k)%Z then drop (Z.to_nat k) l
  else drop (Z.to_nat (Z.of_nat (length l) + k)) l.

End Py.

Module Handler.
Section Handlers.
Context {X : Type}.

(** [int(s)], [None] when it raises [ValueError]. *)
Variable int : string -> option Z.

(** [open(path, "r", encoding="utf-8", errors="replace")] followed by
    [f.read()]: the text or the exception. *)
Variable read : os_state X -> string -> res string.

(** The environment that stands for the branches left out here. *)
Variable E : Env X.

(** [read_file_text(path)]: an [Exception] becomes the text returned. *)
Definition read_file_text (o : os_state X) (path : string) : res string :=
  match read o path with
  | Ok text => Ok text
  | Raise e =>
      if is_Exception e then Ok ("Error reading file: " +:+ exn_str e)
      else Raise e
  end.

(** What [builtin_cat] shows for a file: its text, or the text that
    [read_file_text] makes of an [Exception]. *)
Definition shown (o : os_state X) (path : string) : string :=
  match read o path with
  | Ok text => text
  | Raise e => "Error reading file: " +:+ exn_str e
  end.

(** The loop [for fname in args] of [builtin_cat], which prints
    [read_file_text(fname)] without a newline; [acc] is the text printed so
    far. The [except Exception] around the call has
    nothing to catch. *)
Fixpoint cat_files (o : os_state X) (args : list string) (acc : string)
    : effect X :=
  match args with
  | [] => Effect acc [] o None
  | fname :: args' =>
      match read_file_text o fname with
      | Ok text => cat_files o args' (acc +:+ text)
      | Raise e => Effect acc [] o (Some e)
      end
  end.

(** [builtin_cat]. *)
Definition cat (args : list string) (stdin : option string)
    (o : os_state X) : effect X :=
  match args, stdin with
  | [], Some text => prints text o
  | _, _ => cat_files o args EmptyString
  end.

(** The first lines of [builtin_head] and [builtin_tail]: [n] and
    [files]. *)
Definition count_and_files (args : list string) : Z * list string :=
  match args with
  | first :: rest =>
      if Py.startswith "-" first then
        match int (Py.lstrip_chars "-n" first) with
        | Some n => (n, rest)
        | None => (10%Z, rest)
        end
      else (10%Z, args)
  | [] => (10%Z, args)
  end.

(** [builtin_head]; the loop over the files is the environment's when
    there are files. *)
Definition head (args : list string) (stdin : option string)
    (o : os_state X) : effect X :=
  let '(n, files) := count_and_files args in
  match files, stdin with
  | [], Some text =>
      prints (Str.join EmptyString (Py.slice_to n (Py.splitlines true text))) o
  | [], None => returns o
  | _ :: _, _ => os_call E builtin_head args stdin o
  end.

(** [builtin_tail]; the loop over the files is the environment's when
    there are files. *)
Definition tail (args : list string) (stdin : option string)
    (o : os_state X) : effect X :=
  let '(n, files) := count_and_files args in
  match files, stdin with
  | [], Some text =>
      prints (Str.join EmptyString
                (Py.slice_from (- n)%Z (Py.splitlines true text))) o
  | [], None => returns o
  | _ :: _, _ => os_call E builtin_tail args stdin o
  end.

(** What [builtin_grep] prints for the text [text]: every line that
    contains the pattern, followed by a newline. *)
Definition grep_text (pattern text : string) : string :=
  Str.join EmptyString
    (map (fun line => line +:+ newline)
       (filter (fun line => Str.contains pattern line = true)
          (Py.splitlines false text))).

(** [builtin_grep]; the loop over the files is the environment's when
    there are files. *)
Definition grep (args : list string) (stdin : option string)
    (o : os_state X) : effect X :=
  match args with
  | [] => complains "grep: missing pattern" o
  | pattern :: files =>
      match files, stdin with
      | [], Some text => prints (grep_text pattern text) o
      | [], None => returns o
      | _ :: _, _ => os_call E builtin_grep args stdin o
      end
  end.

(** [BUILTINS[cmd](args, stdin=data)] with these four handlers. *)
Definition call (b : builtin) (args : list string) (stdin : option string)
    (o : os_state X) : effect X :=
  match b with
  | builtin_cat => cat args stdin o
  | builtin_head => head args stdin o
  | builtin_tail => tail args stdin o
  | builtin_grep => grep args stdin o
  | _ => call_builtin E b args stdin o
  end.

(** The environment [E] with the four handlers in it. *)
Definition env : Env X :=
  {| os_call := fun b args stdin o =>
       match b with
       | builtin_cat | builtin_head | builtin_tail | builtin_grep =>
           call b args stdin o
       | _ => os_call E b args stdin o
       end;
     popen := popen E;
     resolve := resolve E;
     write_error := write_error E |}.

End Handlers.
End Handler.

(** ** More notions the statements use *)


(** The names under which [builtin_exit] and [builtin_elevate], the two
    handlers that call [sys.exit], are registered. *)
Definition exit_names : list string :=
  ["exit"; "quit"; "elevate"; "admin"; "sudo"].

(** An environment in which [SystemExit] comes from [sys.exit] only: no
    handler but [builtin_elevate] raises it in its calls of the operating
    system, and neither does the launch of a program or a write. *)
Definition exits_by_sys_exit_only {X} (E : Env X) : Prop :=
  (forall b args stdin o,
      b <> builtin_elevate ->
      raised (os_call E b args stdin o) <> Some SystemExit)
  /\ (forall argv data o o',
        popen E argv data o <> (Raise SystemExit, o'))
  /\ (forall o target append text o',
        write_error E o target append text <> Some (SystemExit, o')).

(** Whitespace only. *)
Definition blank (s : string) : Prop := Str.all Str.isspace s = true.

(** One word: not empty, no whitespace. *)
Definition word (s : string) : Prop :=
  Str.truthy s = true /\ Str.all no_space s = true.

(** An environment and a machine to run the handlers in: [int] reads
    decimal digits, a file is read as the text it holds. *)
Module Play.

Fixpoint digits (s : string) (acc : Z) : option Z :=
  match s with
  | EmptyString => Some acc
  | String c s' =>
      let n := nat_of_ascii c in
      if (48 <=? n) && (n <=? 57)
      then digits s' (10 * acc + Z.of_nat (n - 48))%Z
      else None
  end.

Definition int (s : string) : option Z :=
  match s with
  | EmptyString => None
  | String _ _ => digits s 0%Z
  end.

Definition read (o : os_state unit) (path : string) : res string :=
  match files o !! path with
  | Some text => Ok text
  | None => Raise (FileNotFoundError "[Errno 2] No such file or directory")
  end.

Definition env : Env unit := Handler.env int read Demo.env.

Definition three_lines : string :=
  "one" +:+ newline +:+ "two" +:+ newline +:+ "three" +:+ newline.

End Play.

(** * Properties of the runner *)

Section RunnerFacts.
Context {X : Type} (E : Env X).

Lemma run_stages_app (pre post : list stage) (data : option string)
    (w : world X) :
  run_stages E (pre ++ post) data w =
  match run_stages E pre data w with
  | (Continue data', w') => run_stages E post data' w'
  | stop => stop
  end.
Proof.
  revert data w. induction pre as [|st pre IH]; intros data w; simpl.
  - reflexivity.
  - destruct (run_stage E st data w) as [[data'| |e] w']; auto.
Qed.

Lemma run_stage_empty_argv (out_path : option string) (append : bool)
    (data : option string) (w : world X) :
  run_stage E ([], out_path, append) data w = (Continue data, w).
Proof. reflexivity. Qed.

Lemma alter_fresh_buffer (l : list string) (text : string) :
  alter (fun b => b +:+ text) (length l) (l ++ [EmptyString]) = l ++ [text].
Proof.
  replace (length l) with (length l + 0) by lia.
  rewrite alter_app_r. reflexivity.
Qed.

(** What [capture] does for a builtin: the text captured is the text the
    handler printed, and [sys.stdout] is bound again to what it was, unless
    the exception is neither [SystemExit] nor an [Exception]. *)
Lemma capture_builtin (cmd : string) (handler : builtin)
    (args : list string) (data : option string) (w : world X) :
  BUILTINS !! cmd = Some handler ->
  capture E cmd args data w =
  let eff := call_builtin E handler args data (os w) in
  let w' := after_handler eff w in
  match raised eff with
  | None => (inl (printed eff), w')
  | Some SystemExit => (inr (Propagate SystemExit), w')
  | Some e =>
      if is_Exception e
      then (inr Return, eprint (cmd +:+ ": error: " +:+ exn_str e) w')
      else (inr (Propagate e),
            set_stdout (StringIO (length (buffers w))) w')
  end.
Proof.
  intros Hcmd. unfold capture. rewrite Hcmd.
  cbn [new_buffer set_stdout os sys_stdout terminal buffers sys_stderr executed].
  set (eff := call_builtin E handler args data (os w)).
  unfold write_stdout, eprints, set_os, set_stdout, getvalue, after_handler.
  cbn [os sys_stdout terminal buffers sys_stderr executed].
  rewrite alter_fresh_buffer.
  rewrite list_lookup_middle by reflexivity.
  cbn [default]. 
  destruct (raised eff) as [[]|]; reflexivity.
Qed.

End RunnerFacts.

Lemma BUILTINS_exit : BUILTINS !! "exit" = Some builtin_exit.
Proof. vm_compute. reflexivity. Qed.

Lemma BUILTINS_quit : BUILTINS !! "quit" = Some builtin_exit.
Proof. vm_compute. reflexivity. Qed.

Lemma strip_prefix_app (p s : string) : Str.strip_prefix p (p +:+ s) = Some s.
Proof.
  induction p as [|a p IH]; simpl.
  - reflexivity.
  - rewrite Ascii.eqb_refl. exact IH.
Qed.

Lemma contains_prefix (p s : string) : Str.contains p (p +:+ s) = true.
Proof.
  unfold Str.contains.
  destruct p as [|a p].
  - destruct s; reflexivity.
  - change (String a p +:+ s) with (String a (p +:+ s)).
    unfold Str.cut; fold Str.cut.
    change (String a (p +:+ s)) with (String a p +:+ s).
    rewrite strip_prefix_app. reflexivity.
Qed.

(** C10: a stage whose argument vector is empty is skipped and the text
    threaded through the pipeline passes it unchanged: the stage hands its
    input to the next stage as it is, and a pipeline runs as it does
    without the stage. *)
Theorem empty_stage_passes_text_through {X} (E : Env X)
    (pre post : list stage) (out_path : option string) (append : bool)
    (data : option string) (w : world X) :
  run_stage E ([], out_path, append) data w = (Continue data, w)
  /\ run_stages E (([], out_path, append) :: post) data w
     = run_stages E post data w
  /\ run_pipeline E (pre ++ ([], out_path, append) :: post) w
     = run_pipeline E (pre ++ post) w.
Proof.
  split; [reflexivity|]. split; [reflexivity|].
  unfold run_pipeline. rewrite !run_stages_app.
  destruct (run_stages E pre None w) as [[data'| |e] w']; reflexivity.
Qed.

(** C4: when an [exit] or [quit] stage is reached, [run_pipeline] stops
    there: [SystemExit] leaves it for the caller, the stage is the last
    command run, and the stages after it change nothing. *)
Theorem exit_stage_halts_pipeline {X} (E : Env X) (pre post : list stage)
    (name : string) (args : list string) (out_path : option string)
    (append : bool) (data : option string) (w w1 : world X) :
  name = "exit" \/ name = "quit" ->
  run_stages E pre None w = (Continue data, w1) ->
  run_pipeline E (pre ++ (name :: args, out_path, append) :: post) w
  = (Raised SystemExit, after_exit (name :: args) w1).
Proof.
  intros Hname Hpre. unfold run_pipeline.
  rewrite run_stages_app, Hpre.
  cbn [run_stages run_stage].
  destruct Hname as [-> | ->].
  - rewrite (capture_builtin E _ builtin_exit) by exact BUILTINS_exit.
    unfold after_exit, after_handler. cbn. rewrite app_nil_r. reflexivity.
  - rewrite (capture_builtin E _ builtin_exit) by exact BUILTINS_quit.
    unfold after_exit, after_handler. cbn. rewrite app_nil_r. reflexivity.
Qed.

Lemma exit_stage_halts_pipeline_witness :
  run_pipeline Demo.env
    [(["echo"; "hi"], None, false); (["exit"], None, false);
     (["pwd"], None, false)] Demo.boot
  = (Raised SystemExit,
     after_exit ["exit"]
       (snd (run_stages Demo.env [(["echo"; "hi"], None, false)] None
               Demo.boot))).
Proof.
  apply (exit_stage_halts_pipeline Demo.env [(["echo"; "hi"], None, false)]
           [(["pwd"], None, false)] "exit" [] None false
           (Some ("hi" +:+ newline))).
  - left. reflexivity.
  - vm_compute. reflexivity.
Defined.

(** C1 as stated does not hold: after [nosuch], which is neither a builtin
    nor a program, the stage [pwd] behind it is not run. *)
Lemma unknown_command_later_stage_not_run :
  BUILTINS !! "nosuch" = None
  /\ fst (popen Demo.env ["nosuch"] None (os Demo.boot))
     = Raise (FileNotFoundError "[Errno 2] No such file or directory")
  /\ ~ later_stages_run Demo.env [] (["nosuch"], None, false)
         [(["pwd"], None, false)] Demo.boot.
Proof.
  split; [vm_compute; reflexivity|]. split; [reflexivity|].
  intros Hrun.
  specialize (Hrun (["pwd"], None, false) (or_introl eq_refl)).
  cbn [fst snd] in Hrun. specialize (Hrun ltac:(discriminate)).
  vm_compute in Hrun.
  destruct Hrun as [Heq | []]. discriminate Heq.
Qed.

(** C1, amended: when a stage is reached whose command is not a builtin and
    whose launch raises an [Exception], [run_pipeline] returns normally,
    with exactly one more diagnostic, which contains the command name; the
    stage is the last command run, no text is written, and the stages
    after it change nothing. *)
Theorem unknown_command_ends_pipeline {X} (E : Env X)
    (pre post : list stage) (cmd : string) (args : list string)
    (out_path : option string) (append : bool) (data : option string)
    (w w1 : world X) (e : exn) (o : os_state X) :
  BUILTINS !! cmd = None ->
  run_stages E pre None w = (Continue data, w1) ->
  popen E (cmd :: args) data (os w1) = (Raise e, o) ->
  is_Exception e = true ->
  exists d : string,
    Str.contains cmd d = true
    /\ run_pipeline E (pre ++ (cmd :: args, out_path, append) :: post) w
       = (Returned, after_failed_launch o d (cmd :: args) w1).
Proof.
  intros Hcmd Hpre Hpopen Hexc. unfold run_pipeline.
  rewrite run_stages_app, Hpre.
  cbn [run_stages run_stage]. unfold capture. rewrite Hcmd.
  cbn [log_run os]. rewrite Hpopen.
  destruct e as [| |m|m|m]; try discriminate Hexc; cbn [is_Exception];
    eexists; (split; [apply contains_prefix | reflexivity]).
Qed.

Lemma unknown_command_ends_pipeline_witness :
  exists d : string,
    Str.contains "nosuch" d = true
    /\ run_pipeline Demo.env
         ([(["echo"; "hi"], None, false)]
          ++ (["nosuch"; "-x"], None, false) :: [(["pwd"], None, false)])
         Demo.boot
       = (Returned,
          after_failed_launch (os Demo.boot) d ["nosuch"; "-x"]
            (snd (run_stages Demo.env [(["echo"; "hi"], None, false)] None
                    Demo.boot))).
Proof.
  apply (unknown_command_ends_pipeline Demo.env
           [(["echo"; "hi"], None, false)] [(["pwd"], None, false)]
           "nosuch" ["-x"] None false (Some ("hi" +:+ newline)) Demo.boot _
           (FileNotFoundError "[Errno 2] No such file or directory")).
  - vm_compute. reflexivity.
  - vm_compute. reflexivity.
  - reflexivity.
  - reflexivity.
Defined.

(** C5 as stated does not hold: in [echo hi | > out.txt | cat] the middle
    segment is parsed into a stage with a redirection and without a
    command. The runner skips it: the text of [echo] passes it unchanged
    instead of the empty text, [out.txt] is not written, and the text
    reaches the terminal through [cat]. *)
Lemma redirection_without_command_is_skipped :
  parse_command_line "echo hi | > out.txt | cat" = Ok Demo.bare_redirection
  /\ Demo.bare_redirection !! 1 = Some ([], Some "out.txt", false)
  /\ run_stage Demo.env ([], Some "out.txt", false)
       (Some ("hi" +:+ newline)) Demo.boot
     = (Continue (Some ("hi" +:+ newline)), Demo.boot)
  /\ files (os (snd (run_pipeline Demo.env Demo.bare_redirection Demo.boot)))
       !! "out.txt" = None
  /\ terminal (snd (run_pipeline Demo.env Demo.bare_redirection Demo.boot))
     = "hi" +:+ newline.
Proof. repeat split; vm_compute; reflexivity. Qed.

(** C5, amended: a stage with a redirection and with a command, whose
    command has completed with the captured text [out_text], hands the
    empty text to the next stage. When the write succeeds, the target
    holds [out_text] (after what it held, in append mode) and nothing else
    has changed; when the write fails with an [Exception], one diagnostic
    is emitted and nothing else has changed but what the failed write did
    to the operating system. A stage with a redirection and without a
    command is skipped: it writes nothing and hands on the text it
    receives. *)
Theorem redirected_stage_passes_empty_text {X} (E : Env X) (cmd : string)
    (args : list string) (path : string) (append : bool)
    (data : option string) (w w1 : world X) (out_text : string) :
  run_stage E ([], Some path, append) data w = (Continue data, w)
  /\ (capture E cmd args data
        (World (os w) (sys_stdout w) (terminal w) (buffers w) (sys_stderr w)
               (executed w ++ [cmd :: args]))
      = (inl out_text, w1) ->
      Str.truthy path = true ->
      let target := resolve E (os w1) path in
      let old := default EmptyString (files (os w1) !! target) in
      match write_error E (os w1) target append out_text with
      | None =>
          run_stage E (cmd :: args, Some path, append) data w
          = (Continue (Some EmptyString),
             World (OsState
                      (<[target := if append then old +:+ out_text
                                   else out_text]>
                         (files (os w1)))
                      (hidden (os w1)))
                   (sys_stdout w1) (terminal w1) (buffers w1) (sys_stderr w1)
                   (executed w1))
      | Some (e, o) =>
          is_Exception e = true ->
          run_stage E (cmd :: args, Some path, append) data w
          = (Continue (Some EmptyString),
             World o (sys_stdout w1) (terminal w1) (buffers w1)
                   (sys_stderr w1 ++ ["redirection error: " +:+ exn_str e])
                   (executed w1))
      end).
Proof.
  split; [reflexivity|].
  intros Hcap Hpath target old.
  cbn [run_stage]. unfold log_run. rewrite Hcap. unfold deliver, write_file.
  rewrite Hpath. fold target.
  destruct (write_error E (os w1) target append out_text) as [[e o]|].
  - intros ->. reflexivity.
  - reflexivity.
Qed.

Lemma redirected_stage_passes_empty_text_witness :
  run_stage Demo.env (["echo"; "hi"], Some "out.txt", false) None Demo.boot
  = (Continue (Some EmptyString),
     World (OsState (<["out.txt" := "hi" +:+ newline]> ∅) tt)
           Terminal EmptyString [] [] [["echo"; "hi"]])
  /\ run_stage Demo.env (["echo"; "hi"], Some "/ro", true) None Demo.boot
     = (Continue (Some EmptyString),
        World (OsState ∅ tt) Terminal EmptyString []
              ["redirection error: [Errno 30] Read-only file system: '/ro'"]
              [["echo"; "hi"]]).
Proof.
  split.
  - exact (proj2 (redirected_stage_passes_empty_text Demo.env "echo" ["hi"]
                    "out.txt" false None Demo.boot
                    (log_run ["echo"; "hi"] Demo.boot) ("hi" +:+ newline))
             eq_refl eq_refl).
  - exact (proj2 (redirected_stage_passes_empty_text Demo.env "echo" ["hi"]
                    "/ro" true None Demo.boot
                    (log_run ["echo"; "hi"] Demo.boot) ("hi" +:+ newline))
             eq_refl eq_refl eq_refl).
Defined.

(** The restore that [run_pipeline] does make: when the handler of a
    builtin stage returns, raises an [Exception], which becomes a
    diagnostic, or raises [SystemExit], [sys.stdout] is bound afterwards to
    what it was bound to before. *)
Lemma handled_paths_restore_stdout {X} (E : Env X) (cmd : string)
    (handler : builtin) (args : list string) (out_path : option string)
    (append : bool) (data : option string) (w : world X) :
  BUILTINS !! cmd = Some handler ->
  match raised (call_builtin E handler args data (os w)) with
  | None => True
  | Some e => e = SystemExit \/ is_Exception e = true
  end ->
  sys_stdout (snd (run_stage E (cmd :: args, out_path, append) data w))
  = sys_stdout w.
Proof.
  intros Hcmd Hraised. cbn [run_stage].
  rewrite (capture_builtin E cmd handler) by exact Hcmd.
  cbn [log_run os]. cbn zeta.
  destruct (raised (call_builtin E handler args data (os w))) as [e|].
  - destruct Hraised as [-> | Hexc]; [reflexivity|].
    destruct e; try discriminate Hexc; reflexivity.
  - unfold deliver, write_file.
    destruct out_path as [path|]; [|reflexivity].
    destruct (Str.truthy path); [|reflexivity].
    match goal with
    | |- context [write_error ?a ?b ?c ?d ?f] =>
        destruct (write_error a b c d f) as [[e o]|]
    end; [destruct (is_Exception e)|]; reflexivity.
Qed.

(** C9 fails on the code: the restore is written out in each [except]
    clause and after the [try], without a [finally], so an exception that
    is neither [SystemExit] nor an [Exception] skips it. On the line
    [find /], interrupted from the keyboard while the handler runs, the
    stage ends with [sys.stdout] bound to its buffer instead of the
    terminal it was bound to; the loop of [main] goes on in that state,
    and its [^C] is written into the buffer. *)
Theorem interrupted_builtin_skips_restore :
  parse_command_line "find /" = Ok [(["find"; "/"], None, false)]
  /\ BUILTINS !! "find" = Some builtin_find
  /\ raised (call_builtin Demo.env builtin_find ["/"] None (os Demo.boot))
     = Some KeyboardInterrupt
  /\ sys_stdout Demo.boot = Terminal
  /\ fst (run_stage Demo.env (["find"; "/"], None, false) None Demo.boot)
     = Propagate KeyboardInterrupt
  /\ sys_stdout
       (snd (run_stage Demo.env (["find"; "/"], None, false) None Demo.boot))
     = StringIO 0
  /\ fst (main_step Demo.env "find /" Demo.boot) = NextLine
  /\ sys_stdout (snd (main_step Demo.env "find /" Demo.boot)) = StringIO 0
  /\ buffers (snd (main_step Demo.env "find /" Demo.boot))
     = ["^C" +:+ newline].
Proof. repeat split; vm_compute; reflexivity. Qed.

(** * Properties of the string primitives *)

Section StrFacts.
Variable P : ascii -> bool.

Lemma all_lstrip (s : string) : Str.all P s = true -> Str.all P (Str.lstrip s) = true.
Proof.
  induction s as [|c s IH]; simpl; [reflexivity|].
  intros [Hc Hs]%andb_prop.
  destruct (Str.isspace c); [auto|]. simpl. rewrite Hc, Hs. reflexivity.
Qed.

Lemma all_rstrip (s : string) : Str.all P s = true -> Str.all P (Str.rstrip s) = true.
Proof.
  induction s as [|c s IH]; simpl; [reflexivity|].
  intros [Hc Hs]%andb_prop. specialize (IH Hs).
  destruct (Str.rstrip s) as [|d r].
  - destruct (Str.isspace c); simpl; [reflexivity|]. rewrite Hc. reflexivity.
  - change (Str.all P (String c (String d r)) = true).
    cbn [Str.all]. rewrite Hc. exact IH.
Qed.

Lemma all_strip (s : string) : Str.all P s = true -> Str.all P (Str.strip s) = true.
Proof. intros H. unfold Str.strip. apply all_rstrip, all_lstrip, H. Qed.

Lemma all_split_on (sep : ascii) (s : string) :
  Str.all P s = true -> Forall (fun seg => Str.all P seg = true) (Str.split_on sep s).
Proof.
  induction s as [|c s IH]; simpl.
  - intros _. repeat constructor.
  - intros [Hc Hs]%andb_prop. specialize (IH Hs).
    destruct (Ascii.eqb c sep).
    + constructor; [reflexivity | exact IH].
    + destruct (Str.split_on sep s) as [|seg segs].
      * repeat constructor. simpl. rewrite Hc. reflexivity.
      * inversion IH as [|? ? Hseg Hsegs]; subst.
        constructor; [|exact Hsegs]. simpl. rewrite Hc. exact Hseg.
Qed.

Lemma all_strip_prefix (p s rest : string) :
  Str.strip_prefix p s = Some rest -> Str.all P s = true -> Str.all P rest = true.
Proof.
  revert s. induction p as [|a p IH]; intros s; simpl.
  - intros [= ->]. auto.
  - destruct s as [|b s]; [discriminate|].
    destruct (Ascii.eqb a b); [|discriminate].
    intros Hp [_ Hs]%andb_prop. eauto.
Qed.

Lemma all_cut (sep s before rest : string) :
  Str.cut sep s = Some (before, rest) ->
  Str.all P s = true ->
  Str.all P before = true /\ Str.all P rest = true.
Proof.
  revert before. induction s as [|c s IH]; intros before.
  - unfold Str.cut.
    destruct (Str.strip_prefix sep EmptyString) as [r|] eqn:Hp; [|discriminate].
    intros [= <- <-] H. split; [reflexivity|].
    eapply all_strip_prefix; eauto.
  - unfold Str.cut; fold Str.cut.
    destruct (Str.strip_prefix sep (String c s)) as [r|] eqn:Hp.
    + intros [= <- <-] H. split; [reflexivity|].
      eapply all_strip_prefix; eauto.
    + destruct (Str.cut sep s) as [[b r]|]; [|discriminate].
      intros [= <- <-]. simpl. intros [Hc Hs]%andb_prop.
      destruct (IH b eq_refl Hs) as [Hb Hr]. rewrite Hc, Hb, Hr. auto.
Qed.

End StrFacts.

Lemma length_split_on (sep : ascii) (s : string) :
  length (Str.split_on sep s) = S (Str.count sep s).
Proof.
  induction s as [|c s IH]; simpl; [reflexivity|].
  rewrite (Ascii.eqb_sym sep c).
  destruct (Ascii.eqb c sep); simpl.
  - rewrite IH. reflexivity.
  - destruct (Str.split_on sep s); simpl in *; lia.
Qed.

(** A string that does not start with whitespace keeps its first character
    when stripped, and has a first word. *)
Lemma lstrip_head (s : string) :
  match Str.lstrip s with
  | EmptyString => True
  | String c _ => Str.isspace c = false
  end.
Proof.
  induction s as [|c s IH]; simpl; [exact I|].
  destruct (Str.isspace c) eqn:Hc; [exact IH | exact Hc].
Qed.

Lemma rstrip_head (c : ascii) (s : string) :
  Str.isspace c = false -> exists r, Str.rstrip (String c s) = String c r.
Proof.
  intros Hc. simpl. destruct (Str.rstrip s); rewrite ?Hc; eauto.
Qed.

Lemma strip_head (s : string) :
  match Str.strip s with
  | EmptyString => True
  | String c _ => Str.isspace c = false
  end.
Proof.
  unfold Str.strip. pose proof (lstrip_head s) as H.
  destruct (Str.lstrip s) as [|c t]; [exact I|].
  destruct (rstrip_head c t H) as [r ->]. exact H.
Qed.

Lemma split_ws_head (c : ascii) (s : string) :
  Str.isspace c = false -> exists w ws, Str.split_ws (String c s) = String c w :: ws.
Proof.
  intros Hc. cbn [Str.split_ws]. rewrite Hc.
  destruct s as [|d s]; [eauto|].
  destruct (Str.isspace d); [eauto|].
  destruct (Str.split_ws (String d s)); eauto.
Qed.

(** The subscript of [rest.strip().split()[0]] is in range. *)
Lemma redirect_target_ok (rest : string) :
  exists out_path, redirect_target rest = Ok out_path
    /\ match out_path with Some p => Str.truthy p = true | None => True end.
Proof.
  unfold redirect_target. pose proof (strip_head rest) as H.
  destruct (Str.strip rest) as [|c t]; simpl Str.truthy; cbv iota.
  - exists None. auto.
  - destruct (split_ws_head c t H) as (w & ws & ->).
    exists (Some (String c w)). auto.
Qed.

(** * Properties of the tokenizer and of the parser *)

Lemma res_map_ok {A B : Type} (f : A -> B) (m : res A) (b : B) :
  res_map f m = Ok b -> exists a, m = Ok a /\ b = f a.
Proof. destruct m as [a|e]; simpl; [intros [= <-]; eauto | discriminate]. Qed.

Lemma res_map_raise {A B : Type} (f : A -> B) (m : res A) (e : exn) :
  res_map f m = Raise e -> m = Raise e.
Proof. destruct m as [a|e']; simpl; [discriminate | intros [= <-]; auto]. Qed.

Lemma read_tokens_raises (s : string) :
  forall state token quoted e,
    Shlex.read_tokens s state token quoted = Raise e -> lexical_error e.
Proof.
  unfold lexical_error.
  induction s as [|c s IH]; intros state token quoted e.
  - destruct state; simpl; intros [= <-]; auto; discriminate.
  - destruct state as [| |q|back]; cbn [Shlex.read_tokens].
    + destruct (Str.mem c Shlex.whitespace).
      * destruct (Str.truthy token || quoted); [intros H%res_map_raise|]; eauto.
      * destruct (Ascii.eqb c Shlex.escape); [eauto|].
        destruct (Str.mem c Shlex.quotes); eauto.
    + destruct (Str.mem c Shlex.whitespace).
      * destruct (Str.truthy token || quoted); [intros H%res_map_raise|]; eauto.
      * destruct (Str.mem c Shlex.quotes); [eauto|].
        destruct (Ascii.eqb c Shlex.escape); eauto.
    + destruct (Ascii.eqb c q); [eauto|].
      destruct (Ascii.eqb c Shlex.escape && Str.mem q Shlex.escapedquotes); eauto.
    + eauto.
Qed.

Lemma parse_segment_raises (part : string) (e : exn) :
  parse_segment part = Raise e -> lexical_error e.
Proof.
  unfold parse_segment.
  destruct (Str.cut ">>" part) as [[before rest]|].
  - destruct (redirect_target_ok rest) as (o & -> & _). simpl.
    destruct (Shlex.split before) eqn:Hs; simpl; [discriminate|].
    intros [= <-]. eapply read_tokens_raises, Hs.
  - destruct (Str.cut ">" part) as [[before rest]|].
    + destruct (redirect_target_ok rest) as (o & -> & _). simpl.
      destruct (Shlex.split before) eqn:Hs; simpl; [discriminate|].
      intros [= <-]. eapply read_tokens_raises, Hs.
    + destruct (Shlex.split part) eqn:Hs; simpl; [discriminate|].
      intros [= <-]. eapply read_tokens_raises, Hs.
Qed.

Lemma parse_parts_raises (parts : list string) (e : exn) :
  parse_parts parts = Raise e -> lexical_error e.
Proof.
  induction parts as [|part parts IH]; simpl; [discriminate|].
  destruct (parse_segment part) eqn:Hseg; simpl.
  - intros H%res_map_raise. auto.
  - intros [= <-]. eapply parse_segment_raises, Hseg.
Qed.

(** [parse_parts] yields one stage per part, in order. *)
Lemma parse_parts_lookup (parts : list string) (p : list stage) :
  parse_parts parts = Ok p ->
  length p = length parts
  /\ forall i part, parts !! i = Some part ->
       exists st, p !! i = Some st /\ parse_segment part = Ok st.
Proof.
  revert p. induction parts as [|part parts IH]; intros p; simpl.
  - intros [= <-]. split; [reflexivity|]. intros i part. rewrite lookup_nil. discriminate.
  - destruct (parse_segment part) as [st|] eqn:Hseg; simpl; [|discriminate].
    intros (p' & Hp' & ->)%res_map_ok.
    destruct (IH p' Hp') as [Hlen Hlook]. split; [simpl; lia|].
    intros [|i] part'; simpl.
    + intros [= <-]. eauto.
    + apply Hlook.
Qed.

(** Stages without a command do not count at run time. *)
Lemma run_stages_skip_empty {X} (E : Env X) (p : list stage)
    (data : option string) (w : world X) :
  run_stages E (filter (fun st : stage => st.1.1 <> []) p) data w
  = run_stages E p data w.
Proof.
  revert data w. induction p as [|[[argv out_path] append] p IH]; intros data w.
  - reflexivity.
  - rewrite filter_cons. cbn [fst snd]. destruct argv as [|cmd args].
    + rewrite decide_False by (intros H; apply H; reflexivity).
      rewrite IH. reflexivity.
    + rewrite decide_True by discriminate.
      cbn [run_stages].
      destruct (run_stage E (cmd :: args, out_path, append) data w)
        as [[data'| |e] w']; auto.
Qed.

(** C2 as stated does not hold: the line [a || b] has two segments that
    are not empty and is parsed into three stages. *)
Lemma doubled_pipe_keeps_empty_stage :
  parse_command_line "a || b" = Ok Demo.doubled
  /\ length Demo.doubled = 3
  /\ length (nonempty_segments "a || b") = 2.
Proof. repeat split; vm_compute; reflexivity. Qed.

(** C2, amended: when [parse_command_line] returns, it returns one stage
    per pipe-separated segment, one more than there are pipe characters;
    a segment that is empty once stripped gives a stage with an empty
    argument vector and no redirection. Such stages are dropped only when
    the pipeline is run. *)
Theorem parse_keeps_one_stage_per_segment {X} (E : Env X) (line : string)
    (p : list stage) (w : world X) :
  parse_command_line line = Ok p ->
  length p = S (Str.count "|" line)
  /\ (forall i seg,
        Str.split_on "|" line !! i = Some seg ->
        Str.truthy (Str.strip seg) = false ->
        p !! i = Some ([], None, false))
  /\ run_pipeline E p w
     = run_pipeline E (filter (fun st : stage => st.1.1 <> []) p) w.
Proof.
  unfold parse_command_line. intros Hp.
  destruct (parse_parts_lookup _ _ Hp) as [Hlen Hlook].
  split; [|split].
  - rewrite Hlen, length_map. apply length_split_on.
  - intros i seg Hseg Hempty.
    destruct (Hlook i (Str.strip seg)) as (st & Hst & Hparse).
    + rewrite list_lookup_fmap, Hseg. reflexivity.
    + destruct (Str.strip seg); [|discriminate Hempty].
      vm_compute in Hparse. injection Hparse as <-. exact Hst.
  - unfold run_pipeline. rewrite run_stages_skip_empty. reflexivity.
Qed.

Lemma parse_keeps_one_stage_per_segment_witness :
  length Demo.doubled = S (Str.count "|" "a || b")
  /\ (forall i seg,
        Str.split_on "|" "a || b" !! i = Some seg ->
        Str.truthy (Str.strip seg) = false ->
        Demo.doubled !! i = Some ([], None, false))
  /\ run_pipeline Demo.env Demo.doubled Demo.boot
     = run_pipeline Demo.env
         (filter (fun st : stage => st.1.1 <> []) Demo.doubled) Demo.boot.
Proof.
  apply (parse_keeps_one_stage_per_segment Demo.env "a || b").
  vm_compute. reflexivity.
Defined.

(** C3 as stated does not hold: a line with a quote that is not closed
    makes [parse_command_line] raise [ValueError]. *)
Lemma open_quote_makes_parse_raise :
  parse_command_line (py "echo `abc")
  = Raise (ValueError "No closing quotation").
Proof. vm_compute. reflexivity. Qed.

(** The three kinds of characters the tokenizer tells apart do not
    overlap. *)
Lemma whitespace_not_special (c : ascii) :
  Str.mem c Shlex.whitespace = true ->
  Ascii.eqb c Shlex.escape = false /\ Str.mem c Shlex.quotes = false.
Proof.
  unfold Shlex.whitespace, Shlex.escape, Shlex.quotes. cbn [Str.mem].
  rewrite !orb_false_r.
  intros H. repeat apply orb_prop in H as [H|H];
    apply Ascii.eqb_eq in H; subst c; split; reflexivity.
Qed.

Lemma quote_not_escape (c : ascii) :
  Str.mem c Shlex.quotes = true -> Ascii.eqb c Shlex.escape = false.
Proof.
  unfold Shlex.escape, Shlex.quotes. cbn [Str.mem]. rewrite !orb_false_r.
  intros H. apply orb_prop in H as [H|H];
    apply Ascii.eqb_eq in H; subst c; reflexivity.
Qed.

Lemma is_Ok_res_map {A B : Type} (f : A -> B) (m : res A) :
  is_Ok (res_map f m) = is_Ok m.
Proof. destruct m; reflexivity. Qed.

(** The tokenizer returns exactly on the texts whose quoting is complete,
    whatever it has read so far. *)
Lemma read_tokens_closed (s : string) :
  forall state token quoted,
    is_Ok (Shlex.read_tokens s state token quoted) = closed_from state s.
Proof.
  induction s as [|c s IH]; intros state token quoted.
  - destruct state; reflexivity.
  - destruct state as [| |q|back]; cbn [Shlex.read_tokens closed_from quotes_closed].
    + destruct (Str.mem c Shlex.whitespace) eqn:Hw.
      * destruct (whitespace_not_special c Hw) as [-> ->].
        destruct (Str.truthy token || quoted);
          rewrite ?is_Ok_res_map, IH; reflexivity.
      * destruct (Ascii.eqb c Shlex.escape); [rewrite IH; reflexivity|].
        destruct (Str.mem c Shlex.quotes); rewrite IH; reflexivity.
    + destruct (Str.mem c Shlex.whitespace) eqn:Hw.
      * destruct (whitespace_not_special c Hw) as [-> ->].
        destruct (Str.truthy token || quoted);
          rewrite ?is_Ok_res_map, IH; reflexivity.
      * destruct (Str.mem c Shlex.quotes) eqn:Hq.
        -- rewrite (quote_not_escape c Hq), IH. reflexivity.
        -- destruct (Ascii.eqb c Shlex.escape); rewrite IH; reflexivity.
    + destruct (Ascii.eqb c q); [rewrite IH; reflexivity|].
      destruct (Ascii.eqb c Shlex.escape && Str.mem q Shlex.escapedquotes);
        rewrite IH; reflexivity.
    + rewrite IH. reflexivity.
Qed.

Lemma split_closed (s : string) :
  is_Ok (Shlex.split s) = quotes_closed s None.
Proof. exact (read_tokens_closed s Shlex.InWhitespace EmptyString false). Qed.

(** A segment is parsed exactly when the quoting of its command text is
    complete: the target of a redirection is never tokenized. *)
Lemma parse_segment_closed (part : string) :
  is_Ok (parse_segment part) = quotes_closed (command_text part) None.
Proof.
  unfold parse_segment, command_text.
  destruct (Str.cut ">>" part) as [[before rest]|].
  - destruct (redirect_target_ok rest) as (o & -> & _). cbn [res_bind].
    rewrite <- split_closed. destruct (Shlex.split before); reflexivity.
  - destruct (Str.cut ">" part) as [[before rest]|].
    + destruct (redirect_target_ok rest) as (o & -> & _). cbn [res_bind].
      rewrite <- split_closed. destruct (Shlex.split before); reflexivity.
    + rewrite <- split_closed. destruct (Shlex.split part); reflexivity.
Qed.

Lemma parse_parts_closed (segs : list string) :
  is_Ok (parse_parts (map Str.strip segs))
  = forallb (fun seg => quotes_closed (command_text (Str.strip seg)) None) segs.
Proof.
  induction segs as [|seg segs IH]; [reflexivity|].
  cbn [map parse_parts forallb].
  rewrite <- (parse_segment_closed (Str.strip seg)), <- IH.
  destruct (parse_segment (Str.strip seg)); cbn [res_bind is_Ok andb];
    [apply is_Ok_res_map | reflexivity].
Qed.

(** C3, amended: [parse_command_line] returns a pipeline for every line in
    which the command text of every pipe-separated segment has its quotes
    closed and no backslash left at its end; for every other line it raises
    one of the two [ValueError]s of the tokenizer, for a quote that is not
    closed and for a backslash with nothing to escape. *)
Theorem parse_returns_iff_quotes_closed (line : string) :
  (well_quoted line = true -> exists p, parse_command_line line = Ok p)
  /\ (well_quoted line = false ->
      exists e, parse_command_line line = Raise e /\ lexical_error e).
Proof.
  unfold well_quoted, parse_command_line.
  rewrite <- parse_parts_closed.
  destruct (parse_parts (map Str.strip (Str.split_on "|" line))) as [p|e]
    eqn:Hparse; cbn [is_Ok]; split; intros H; try discriminate H.
  - exists p. reflexivity.
  - exists e. split; [reflexivity|]. eapply parse_parts_raises, Hparse.
Qed.

Lemma parse_returns_iff_quotes_closed_witness :
  (exists p, parse_command_line (py "echo `hello world` 'a b' c\ d > out.txt")
             = Ok p)
  /\ (exists e, parse_command_line (py "echo `abc") = Raise e
                /\ lexical_error e).
Proof.
  split.
  - apply (proj1 (parse_returns_iff_quotes_closed
                    (py "echo `hello world` 'a b' c\ d > out.txt"))).
    vm_compute. reflexivity.
  - apply (proj2 (parse_returns_iff_quotes_closed (py "echo `abc"))).
    vm_compute. reflexivity.
Defined.

(** The line of the witness is parsed into the arguments the quotes
    delimit. *)
Lemma quoted_line_is_parsed :
  parse_command_line (py "echo `hello world` 'a b' c\ d > out.txt")
  = Ok [(["echo"; "hello world"; "a b"; "c d"], Some "out.txt", false)].
Proof. vm_compute. reflexivity. Qed.

(** C8: there is a line with a pipe character between quotes that the
    parser splits at that pipe into two stages. *)
Theorem quoted_pipe_splits_line :
  exists line : string,
    inside_quotes "|" line None false = true
    /\ Str.count "|" line = 1
    /\ exists st1 st2 : stage, parse_command_line line = Ok [st1; st2].
Proof.
  exists (py "echo hi > `a | cat > b`").
  split; [vm_compute; reflexivity|]. split; [vm_compute; reflexivity|].
  eexists _, _. vm_compute. reflexivity.
Qed.

(** The usual line with a pipe between quotes is not parsed at all: each
    half has a quote that is not closed. *)
Lemma quoted_pipe_usually_raises :
  inside_quotes "|" (py "echo `a|b`") None false = true
  /\ parse_command_line (py "echo `a|b`")
     = Raise (ValueError "No closing quotation").
Proof. split; vm_compute; reflexivity. Qed.

(** What [main] does with the two exceptions that reach it: [SystemExit]
    ends the loop, an exception of the parser is reported and the loop goes
    on. *)
Lemma main_step_exit {X} (E : Env X) (line : string) (p : list stage)
    (w w' : world X) :
  Str.truthy (Str.strip line) = true ->
  String.eqb (Str.strip line) "help" = false ->
  parse_command_line line = Ok p ->
  run_pipeline E p w = (Raised SystemExit, w') ->
  main_step E line w = (Break, w').
Proof.
  intros Hline Hhelp Hparse Hrun. unfold main_step.
  rewrite Hline, Hhelp, Hparse, Hrun. reflexivity.
Qed.

Lemma main_step_parse_error {X} (E : Env X) (line : string) (e : exn)
    (w : world X) :
  Str.truthy (Str.strip line) = true ->
  String.eqb (Str.strip line) "help" = false ->
  parse_command_line line = Raise e ->
  main_step E line w = (NextLine, eprint ("Shell error: " +:+ exn_str e) w).
Proof.
  intros Hline Hhelp Hparse. unfold main_step.
  rewrite Hline, Hhelp, Hparse. cbn [negb].
  destruct (parse_parts_raises _ e Hparse) as [-> | ->]; reflexivity.
Qed.

(** A segment with [>>] is split at its first [>>], in append mode. *)
Lemma parse_segment_append (part : string) (st : stage) :
  Str.contains ">>" part = true ->
  parse_segment part = Ok st ->
  st.2 = true
  /\ exists before rest,
       Str.cut ">>" part = Some (before, rest)
       /\ Shlex.split before = Ok st.1.1
       /\ redirect_target rest = Ok st.1.2.
Proof.
  unfold Str.contains, parse_segment.
  destruct (Str.cut ">>" part) as [[before rest]|]; [intros _|discriminate].
  destruct (redirect_target rest) as [out_path|] eqn:Ht; simpl; [|discriminate].
  destruct (Shlex.split before) as [argv|] eqn:Hs; simpl; [|discriminate].
  intros [= <-]. simpl. split; [reflexivity|].
  exists before, rest. auto.
Qed.

(** A redirection target is never the empty string. *)
Lemma redirect_target_truthy (rest path : string) :
  redirect_target rest = Ok (Some path) -> Str.truthy path = true.
Proof.
  destruct (redirect_target_ok rest) as (o & -> & Ho).
  intros [= ->]. exact Ho.
Qed.

(** Running a one-stage pipeline whose command completes and whose
    redirection succeeds. *)
Lemma run_redirected_stage {X} (E : Env X) (cmd : string)
    (args : list string) (path : string) (append : bool) (w w1 : world X)
    (out_text : string) :
  Str.truthy path = true ->
  capture E cmd args None (log_run (cmd :: args) w) = (inl out_text, w1) ->
  write_error E (os w1) (resolve E (os w1) path) append out_text = None ->
  run_pipeline E [(cmd :: args, Some path, append)] w
  = (Returned, after_write E path append out_text w1).
Proof.
  intros Hpath Hcap Hwrite.
  unfold run_pipeline, after_write. cbn [run_stages run_stage].
  rewrite Hcap. unfold deliver. rewrite Hpath.
  unfold write_file. rewrite Hwrite. reflexivity.
Qed.

Lemma after_write_lookup {X} (E : Env X) (path : string) (append : bool)
    (out_text : string) (w : world X) :
  write_error E (os w) (resolve E (os w) path) append out_text = None ->
  files (os (after_write E path append out_text w)) !! resolve E (os w) path
  = Some (if append
          then default EmptyString (files (os w) !! resolve E (os w) path)
               +:+ out_text
          else out_text).
Proof.
  intros Hwrite. unfold after_write, write_file. rewrite Hwrite.
  cbn [snd set_os os files]. apply lookup_insert_eq.
Qed.

(** C6: a segment with [>>] is cut at its first [>>] and parsed in append
    mode, never as a truncation; and a stage parsed so appends: when its
    command is run twice, completes both times and leaves the target alone,
    the target ends with the first output followed by the second. *)
Theorem append_redirection_accumulates {X} (E : Env X) (part : string)
    (st : stage) :
  Str.contains ">>" part = true ->
  parse_segment part = Ok st ->
  st.2 = true
  /\ (exists before rest,
        Str.cut ">>" part = Some (before, rest)
        /\ Shlex.split before = Ok st.1.1
        /\ redirect_target rest = Ok st.1.2)
  /\ forall (cmd : string) (args : list string) (path : string)
       (w w1 w3 : world X) (t1 t2 : string),
       st.1.1 = cmd :: args ->
       st.1.2 = Some path ->
       capture E cmd args None (log_run (cmd :: args) w) = (inl t1, w1) ->
       write_error E (os w1) (resolve E (os w1) path) true t1 = None ->
       capture E cmd args None
         (log_run (cmd :: args) (after_write E path true t1 w1))
       = (inl t2, w3) ->
       resolve E (os w3) path = resolve E (os w1) path ->
       files (os w3) !! resolve E (os w1) path
       = files (os (after_write E path true t1 w1)) !! resolve E (os w1) path ->
       write_error E (os w3) (resolve E (os w3) path) true t2 = None ->
       run_pipeline E [st] w = (Returned, after_write E path true t1 w1)
       /\ run_pipeline E [st] (after_write E path true t1 w1)
          = (Returned, after_write E path true t2 w3)
       /\ files (os (after_write E path true t2 w3)) !! resolve E (os w1) path
          = Some ((default EmptyString
                     (files (os w1) !! resolve E (os w1) path)
                   +:+ t1) +:+ t2).
Proof.
  intros Hin Hparse.
  destruct (parse_segment_append _ _ Hin Hparse)
    as (Happend & before & rest & Hcut & Hsplit & Htarget).
  split; [exact Happend|]. split; [eauto|].
  intros cmd args path w w1 w3 t1 t2 Hargv Hout Hcap1 Hw1 Hcap2 Hsame Hkept Hw2.
  destruct st as [[argv out_path] append]. cbn [fst snd] in *. subst.
  pose proof (redirect_target_truthy _ _ Htarget) as Hpath.
  split; [|split].
  - apply run_redirected_stage; assumption.
  - apply run_redirected_stage; assumption.
  - rewrite <- Hsame at 1. rewrite after_write_lookup by exact Hw2.
    rewrite Hsame, Hkept, after_write_lookup by exact Hw1. reflexivity.
Qed.

Lemma append_redirection_accumulates_witness :
  run_pipeline Demo.env [(["echo"; "a"], Some "out.txt", true)] Demo.boot
  = (Returned,
     after_write Demo.env "out.txt" true ("a" +:+ newline)
       (log_run ["echo"; "a"] Demo.boot))
  /\ files (os (after_write Demo.env "out.txt" true ("a" +:+ newline)
                  (log_run ["echo"; "a"]
                     (after_write Demo.env "out.txt" true ("a" +:+ newline)
                        (log_run ["echo"; "a"] Demo.boot)))))
     !! "out.txt"
     = Some ((EmptyString +:+ ("a" +:+ newline)) +:+ ("a" +:+ newline)).
Proof.
  destruct (append_redirection_accumulates Demo.env "echo a >> out.txt"
              (["echo"; "a"], Some "out.txt", true))
    as (_ & _ & Hrun); [vm_compute; reflexivity ..|].
  destruct (Hrun "echo" ["a"] "out.txt" Demo.boot
              (log_run ["echo"; "a"] Demo.boot)
              (log_run ["echo"; "a"]
                 (after_write Demo.env "out.txt" true ("a" +:+ newline)
                    (log_run ["echo"; "a"] Demo.boot)))
              ("a" +:+ newline) ("a" +:+ newline))
    as (Hfirst & _ & Hfile);
    try (vm_compute; reflexivity).
  split; [exact Hfirst | exact Hfile].
Defined.

(** * Reading back what [shlex.quote] wrote *)

Lemma append_assoc (a b c : string) : (a +:+ b) +:+ c = a +:+ (b +:+ c).
Proof.
  induction a as [|x a IH]; [reflexivity|].
  change (String x ((a +:+ b) +:+ c) = String x (a +:+ (b +:+ c))).
  rewrite IH. reflexivity.
Qed.

Lemma append_empty_r (a : string) : a +:+ EmptyString = a.
Proof.
  induction a as [|x a IH]; [reflexivity|].
  change (String x (a +:+ EmptyString) = String x a).
  rewrite IH. reflexivity.
Qed.

Lemma snoc_append (token : string) (c : ascii) (s : string) :
  Shlex.snoc token c +:+ s = token +:+ String c s.
Proof. unfold Shlex.snoc. rewrite append_assoc. reflexivity. Qed.

(** A character that [shlex.quote] leaves bare means nothing to the
    tokenizer, to [strip] and to the parser. *)
Lemma safe_char_inert (c : ascii) :
  Shlex.safe_char c = true ->
  Str.mem c Shlex.whitespace = false
  /\ Str.mem c Shlex.quotes = false
  /\ Ascii.eqb c Shlex.escape = false
  /\ Str.isspace c = false
  /\ no_gt c = true
  /\ no_pipe c = true.
Proof.
  destruct c as [[] [] [] [] [] [] [] []]; vm_compute;
    intros H; try discriminate H; repeat split.
Qed.

(** Bare characters are added to the word being read. *)
Lemma read_safe (s k token : string) (quoted : bool) :
  Str.all Shlex.safe_char s = true ->
  Shlex.read_tokens (s +:+ k) Shlex.InWord token quoted
  = Shlex.read_tokens k Shlex.InWord (token +:+ s) quoted.
Proof.
  revert token. induction s as [|c s IH]; intros token.
  - intros _. rewrite append_empty_r. reflexivity.
  - simpl Str.all. intros [Hc Hs]%andb_prop.
    destruct (safe_char_inert c Hc) as (Hw & Hq & He & _).
    change (String c s +:+ k) with (String c (s +:+ k)).
    cbn [Shlex.read_tokens]. rewrite Hw, Hq, He.
    rewrite IH by exact Hs. rewrite snoc_append. reflexivity.
Qed.

(** Inside single quotes, the text written for [s] is read as [s]. *)
Lemma read_escaped (s k token : string) (quoted : bool) :
  Shlex.read_tokens (Shlex.escape_quotes s +:+ String "'" k)
    (Shlex.InQuote "'") token quoted
  = Shlex.read_tokens k Shlex.InWord (token +:+ s) true.
Proof.
  revert token quoted. induction s as [|c s IH]; intros token quoted.
  - rewrite append_empty_r. reflexivity.
  - cbn [Shlex.escape_quotes]. destruct (Ascii.eqb c "'") eqn:Hc.
    + apply Ascii.eqb_eq in Hc. subst c.
      repeat match goal with
             | |- context [String ?x ?y +:+ ?z] =>
                 change (String x y +:+ z) with (String x (y +:+ z))
             end.
      lex_step. rewrite IH, snoc_append. reflexivity.
    + change (String c (Shlex.escape_quotes s) +:+ String "'" k)
        with (String c (Shlex.escape_quotes s +:+ String "'" k)).
      cbn [Shlex.read_tokens]. rewrite Hc.
      replace (Ascii.eqb c Shlex.escape
               && Str.mem "'" Shlex.escapedquotes) with false
        by (rewrite andb_comm; reflexivity).
      rewrite IH, snoc_append. reflexivity.
Qed.

(** After the text of an argument the tokenizer is in a word that holds the
    argument. *)
Lemma read_quote (arg k : string) :
  exists quoted : bool,
    Str.truthy arg || quoted = true
    /\ Shlex.read_tokens (Shlex.quote arg +:+ k) Shlex.InWhitespace
         EmptyString false
       = Shlex.read_tokens k Shlex.InWord arg quoted.
Proof.
  unfold Shlex.quote. destruct arg as [|c arg].
  - exists true. split; reflexivity.
  - cbn [Str.truthy negb].
    destruct (Str.all Shlex.safe_char (String c arg)) eqn:Hsafe.
    + exists false. split; [reflexivity|].
      simpl in Hsafe. apply andb_prop in Hsafe as [Hc Hs].
      destruct (safe_char_inert c Hc) as (Hw & Hq & He & _).
      change (String c arg +:+ k) with (String c (arg +:+ k)).
      cbn [Shlex.read_tokens]. rewrite Hw, Hq, He.
      apply read_safe, Hs.
    + exists true. split; [reflexivity|].
      change (String "'" (Shlex.escape_quotes (String c arg) +:+ "'") +:+ k)
        with (String "'" ((Shlex.escape_quotes (String c arg) +:+ "'") +:+ k)).
      rewrite append_assoc.
      lex_step. apply read_escaped.
Qed.

(** The arguments, quoted and joined with spaces, are read back, also when
    a space follows. *)
Lemma read_args (argv : list string) (tail : string) :
  tail = EmptyString \/ tail = " " ->
  Shlex.split (Str.join " " (map Shlex.quote argv) +:+ tail) = Ok argv.
Proof.
  unfold Shlex.split. intros Htail.
  induction argv as [|arg argv IH].
  - destruct Htail as [-> | ->]; reflexivity.
  - destruct argv as [|arg' argv].
    + cbn [map Str.join].
      destruct (read_quote arg tail) as (quoted & Hq & ->).
      destruct Htail as [-> | ->]; cbn; unfold Shlex.emit; rewrite Hq; reflexivity.
    + change (Str.join " " (map Shlex.quote (arg :: arg' :: argv)))
        with (Shlex.quote arg +:+ " " +:+
              Str.join " " (map Shlex.quote (arg' :: argv))).
      rewrite !append_assoc.
      destruct (read_quote arg
                  (" " +:+ Str.join " " (map Shlex.quote (arg' :: argv)) +:+ tail))
        as (quoted & Hq & ->).
      change (" " +:+ ?x) with (String " " x).
      cbn [Shlex.read_tokens Str.mem Shlex.whitespace Ascii.eqb Bool.eqb orb].
      rewrite Hq, IH. reflexivity.
Qed.

(** * Stripping and cutting the text of a stage *)

Lemma all_app (P : ascii -> bool) (a b : string) :
  Str.all P (a +:+ b) = Str.all P a && Str.all P b.
Proof.
  induction a as [|x a IH]; [reflexivity|].
  change (Str.all P (String x (a +:+ b)) = Str.all P (String x a) && Str.all P b).
  cbn [Str.all]. rewrite IH, andb_assoc. reflexivity.
Qed.

Lemma all_impl (P Q : ascii -> bool) (s : string) :
  (forall c, P c = true -> Q c = true) ->
  Str.all P s = true -> Str.all Q s = true.
Proof.
  intros HPQ. induction s as [|c s IH]; simpl; [reflexivity|].
  intros [Hc Hs]%andb_prop. rewrite (HPQ c Hc), (IH Hs). reflexivity.
Qed.

Lemma rstrip_app_space (s : string) : Str.rstrip (s +:+ " ") = Str.rstrip s.
Proof.
  induction s as [|c s IH]; [reflexivity|].
  change (String c s +:+ " ") with (String c (s +:+ " ")).
  cbn [Str.rstrip]. rewrite IH. reflexivity.
Qed.

Lemma rstrip_tight (s : string) : ends_tight s = true -> Str.rstrip s = s.
Proof.
  induction s as [|c s IH]; [reflexivity|].
  cbn [ends_tight Str.rstrip]. destruct s as [|d s].
  - intros H%negb_true_iff. simpl. rewrite H. reflexivity.
  - intros H. rewrite (IH H). reflexivity.
Qed.

Lemma ends_tight_app (a : string) (c : ascii) (b : string) :
  ends_tight (a +:+ String c b) = ends_tight (String c b).
Proof.
  induction a as [|x a IH]; [reflexivity|].
  change (String x a +:+ String c b) with (String x (a +:+ String c b)).
  cbn [ends_tight]. destruct a as [|y a]; exact IH.
Qed.

Lemma ends_tight_no_space (s : string) :
  Str.all no_space s = true -> ends_tight s = true.
Proof.
  induction s as [|c s IH]; [reflexivity|].
  cbn [Str.all ends_tight]. intros [Hc Hs]%andb_prop.
  destruct s; [exact Hc | exact (IH Hs)].
Qed.

Lemma safe_no_space (s : string) :
  Str.all Shlex.safe_char s = true -> Str.all no_space s = true.
Proof.
  apply all_impl. intros c Hc. unfold no_space.
  destruct (safe_char_inert c Hc) as (_ & _ & _ & -> & _). reflexivity.
Qed.

(** The text of an argument starts and ends with a character that is not
    whitespace. *)
Lemma quote_shape (arg : string) :
  (exists c r, Shlex.quote arg = String c r /\ Str.isspace c = false)
  /\ ends_tight (Shlex.quote arg) = true.
Proof.
  unfold Shlex.quote. destruct arg as [|c arg].
  - split; [eexists _, _; split; reflexivity | reflexivity].
  - cbn [Str.truthy negb].
    destruct (Str.all Shlex.safe_char (String c arg)) eqn:Hsafe.
    + split; [|apply ends_tight_no_space, safe_no_space, Hsafe].
      exists c, arg. split; [reflexivity|].
      simpl in Hsafe. apply andb_prop in Hsafe as [Hc _].
      apply (safe_char_inert c Hc).
    + split; [eexists _, _; split; reflexivity|].
      change (String "'" (Shlex.escape_quotes (String c arg) +:+ "'"))
        with (String "'" (Shlex.escape_quotes (String c arg)) +:+ "'").
      rewrite ends_tight_app. reflexivity.
Qed.

Lemma join_quote_shape (arg : string) (argv : list string) :
  (exists c r, Str.join " " (map Shlex.quote (arg :: argv)) = String c r
               /\ Str.isspace c = false)
  /\ ends_tight (Str.join " " (map Shlex.quote (arg :: argv))) = true.
Proof.
  revert arg. induction argv as [|arg' argv IH]; intros arg.
  - apply quote_shape.
  - change (Str.join " " (map Shlex.quote (arg :: arg' :: argv)))
      with (Shlex.quote arg +:+ " " +:+
            Str.join " " (map Shlex.quote (arg' :: argv))).
    destruct (IH arg') as [(c' & r' & Hj & _) Hend].
    destruct (quote_shape arg) as [(c & r & Hq & Hc) _].
    split.
    + rewrite Hq. eexists c, _. split; [reflexivity | exact Hc].
    + rewrite <- append_assoc, Hj, ends_tight_app, <- Hj. exact Hend.
Qed.

(** The characters of the text of an argument: those of the argument and
    the two quotes. *)
Lemma all_escape_quotes (P : ascii -> bool) (s : string) :
  P "'"%char = true -> P "034"%char = true ->
  Str.all P s = true -> Str.all P (Shlex.escape_quotes s) = true.
Proof.
  intros Hs Hd. induction s as [|c s IH]; [reflexivity|].
  cbn [Str.all Shlex.escape_quotes]. intros [Hc Hrest]%andb_prop.
  destruct (Ascii.eqb c "'"); cbn [Str.all];
    rewrite ?Hs, ?Hd, ?Hc, (IH Hrest); reflexivity.
Qed.

Lemma all_quote (P : ascii -> bool) (arg : string) :
  P "'"%char = true -> P "034"%char = true ->
  Str.all P arg = true -> Str.all P (Shlex.quote arg) = true.
Proof.
  intros Hs Hd Harg. unfold Shlex.quote.
  destruct (negb (Str.truthy arg)); [simpl; rewrite Hs; reflexivity|].
  destruct (Str.all Shlex.safe_char arg); [exact Harg|].
  cbn [Str.all]. rewrite Hs, all_app, (all_escape_quotes P arg Hs Hd Harg).
  simpl. rewrite Hs. reflexivity.
Qed.

Lemma all_join_quote (P : ascii -> bool) (argv : list string) :
  P "'"%char = true -> P "034"%char = true -> P " "%char = true ->
  Forall (fun arg => Str.all P arg = true) argv ->
  Str.all P (Str.join " " (map Shlex.quote argv)) = true.
Proof.
  intros Hs Hd Hsp. induction 1 as [|arg argv Harg Hargv IH]; [reflexivity|].
  destruct argv as [|arg' argv].
  - apply all_quote; assumption.
  - change (Str.join " " (map Shlex.quote (arg :: arg' :: argv)))
      with (Shlex.quote arg +:+ " " +:+
            Str.join " " (map Shlex.quote (arg' :: argv))).
    rewrite !all_app, IH, (all_quote P arg Hs Hd Harg). simpl. rewrite Hsp.
    reflexivity.
Qed.

(** Cutting at the first [>] and at the first [>>]. *)
Lemma cut_gt (x y : string) :
  Str.all no_gt x = true -> Str.cut ">" (x +:+ String ">" y) = Some (x, y).
Proof.
  induction x as [|c x IH]; [reflexivity|].
  cbn [Str.all]. intros [Hc Hx]%andb_prop.
  change (String c x +:+ String ">" y) with (String c (x +:+ String ">" y)).
  unfold Str.cut; fold Str.cut. rewrite (IH Hx).
  unfold no_gt in Hc. apply negb_true_iff in Hc.
  cbn [Str.strip_prefix]. rewrite Ascii.eqb_sym, Hc. reflexivity.
Qed.

Lemma cut_gt_none (x : string) :
  Str.all no_gt x = true -> Str.cut ">" x = None.
Proof.
  induction x as [|c x IH]; [reflexivity|].
  cbn [Str.all]. intros [Hc Hx]%andb_prop.
  unfold Str.cut; fold Str.cut. rewrite (IH Hx).
  unfold no_gt in Hc. apply negb_true_iff in Hc.
  cbn [Str.strip_prefix]. rewrite Ascii.eqb_sym, Hc. reflexivity.
Qed.

Lemma cut_gtgt (x y : string) :
  Str.all no_gt x = true ->
  Str.cut ">>" (x +:+ String ">" (String ">" y)) = Some (x, y).
Proof.
  induction x as [|c x IH]; [reflexivity|].
  cbn [Str.all]. intros [Hc Hx]%andb_prop.
  change (String c x +:+ ?z) with (String c (x +:+ z)).
  unfold Str.cut; fold Str.cut. rewrite (IH Hx).
  unfold no_gt in Hc. apply negb_true_iff in Hc.
  cbn [Str.strip_prefix]. rewrite Ascii.eqb_sym, Hc. reflexivity.
Qed.

Lemma no_gtgt_tail (c : ascii) (s : string) :
  no_gtgt (String c s) = true -> no_gtgt s = true.
Proof.
  destruct s as [|d s]; [reflexivity|].
  change (no_gtgt (String c (String d s)))
    with (negb (Ascii.eqb c ">" && Ascii.eqb d ">") && no_gtgt (String d s)).
  intros [_ H]%andb_prop. exact H.
Qed.

Lemma cut_gtgt_none (s : string) :
  no_gtgt s = true <-> Str.cut ">>" s = None.
Proof.
  induction s as [|a s IH]; [split; reflexivity|].
  unfold Str.cut; fold Str.cut. cbn [Str.strip_prefix].
  destruct s as [|b s].
  - rewrite Ascii.eqb_sym. destruct (Ascii.eqb a ">"); split; reflexivity.
  - change (no_gtgt (String a (String b s)))
      with (negb (Ascii.eqb a ">" && Ascii.eqb b ">") && no_gtgt (String b s)).
    rewrite (Ascii.eqb_sym ">" a), (Ascii.eqb_sym ">" b).
    destruct (Ascii.eqb a ">"), (Ascii.eqb b ">"); cbn [andb negb];
      try (split; discriminate);
      destruct (Str.cut ">>" (String b s)) as [[u v]|];
      destruct IH as [IH1 IH2];
      (split; intros H;
       [ try reflexivity; specialize (IH1 H); discriminate IH1
       | try discriminate H; apply IH2; reflexivity ]).
Qed.

Lemma no_gt_no_gtgt_app (x y : string) :
  Str.all no_gt x = true -> no_gtgt y = true -> no_gtgt (x +:+ y) = true.
Proof.
  intros Hx Hy. induction x as [|c x IH]; [exact Hy|].
  cbn [Str.all] in Hx. apply andb_prop in Hx as [Hc Hx].
  change (String c x +:+ y) with (String c (x +:+ y)).
  specialize (IH Hx). destruct (x +:+ y) as [|d r]; [reflexivity|].
  change (no_gtgt (String c (String d r)))
    with (negb (Ascii.eqb c ">" && Ascii.eqb d ">") && no_gtgt (String d r)).
  rewrite IH. unfold no_gt in Hc.
  apply negb_true_iff in Hc. rewrite Hc. reflexivity.
Qed.

(** * What the parser returns *)

Lemma no_gtgt_cons (c d : ascii) (s : string) :
  no_gtgt (String c (String d s))
  = negb (Ascii.eqb c ">" && Ascii.eqb d ">") && no_gtgt (String d s).
Proof. reflexivity. Qed.

Lemma no_gtgt_strip_prefix (p s r : string) :
  Str.strip_prefix p s = Some r -> no_gtgt s = true -> no_gtgt r = true.
Proof.
  revert s. induction p as [|a p IH]; intros s; cbn [Str.strip_prefix].
  - intros [= ->]. auto.
  - destruct s as [|b s]; [discriminate|].
    destruct (Ascii.eqb a b); [|discriminate].
    intros Hp Hs. apply (IH s Hp), (no_gtgt_tail b), Hs.
Qed.

Lemma no_gtgt_cut (sep s before rest : string) :
  Str.cut sep s = Some (before, rest) ->
  no_gtgt s = true -> no_gtgt rest = true.
Proof.
  revert before. induction s as [|c s IH]; intros before;
    unfold Str.cut; fold Str.cut.
  - destruct (Str.strip_prefix sep EmptyString) as [r|] eqn:Hp; [|discriminate].
    intros [= <- <-]. eapply no_gtgt_strip_prefix, Hp.
  - destruct (Str.strip_prefix sep (String c s)) as [r|] eqn:Hp.
    + intros [= <- <-]. eapply no_gtgt_strip_prefix, Hp.
    + destruct (Str.cut sep s) as [[b r]|]; [|discriminate].
      intros [= <- <-] Hs. apply (IH b eq_refl), (no_gtgt_tail c), Hs.
Qed.

Lemma no_gtgt_lstrip (s : string) :
  no_gtgt s = true -> no_gtgt (Str.lstrip s) = true.
Proof.
  induction s as [|c s IH]; [reflexivity|].
  intros Hs. cbn [Str.lstrip]. destruct (Str.isspace c); [|exact Hs].
  apply IH, (no_gtgt_tail c), Hs.
Qed.

Lemma rstrip_first (s : string) (d : ascii) (r : string) :
  Str.rstrip s = String d r -> exists t, s = String d t.
Proof.
  destruct s as [|c s]; [discriminate|]. cbn [Str.rstrip].
  destruct (Str.rstrip s); [destruct (Str.isspace c)|];
    intros [= <- <-] || intros [=]; eauto.
Qed.

Lemma no_gtgt_rstrip (s : string) :
  no_gtgt s = true -> no_gtgt (Str.rstrip s) = true.
Proof.
  induction s as [|c s IH]; [reflexivity|].
  intros Hs. cbn [Str.rstrip].
  destruct (Str.rstrip s) as [|d r] eqn:Hr.
  - destruct (Str.isspace c); reflexivity.
  - destruct (rstrip_first s d r Hr) as [t ->].
    rewrite no_gtgt_cons in Hs |- *. apply andb_prop in Hs as [-> Hs].
    apply IH, Hs.
Qed.

Lemma no_gtgt_split_ws (s : string) :
  no_gtgt s = true -> Forall (fun w => no_gtgt w = true) (Str.split_ws s).
Proof.
  induction s as [|c s IH]; [constructor|].
  intros Hs. pose proof (no_gtgt_tail c s Hs) as Hs'.
  cbn [Str.split_ws]. destruct (Str.isspace c); [auto|].
  destruct s as [|d s]; [repeat constructor|].
  destruct (Str.isspace d) eqn:Hd; [constructor; auto|].
  destruct (split_ws_head d s Hd) as (w & ws & Hw).
  specialize (IH Hs'). rewrite Hw in IH |- *.
  inversion IH as [|? ? Hw1 Hws]; subst. constructor; [|exact Hws].
  rewrite no_gtgt_cons in Hs |- *. apply andb_prop in Hs as [-> _]. exact Hw1.
Qed.

Lemma split_ws_no_space (s : string) :
  Forall (fun w => Str.all no_space w = true) (Str.split_ws s).
Proof.
  induction s as [|c s IH]; [constructor|].
  cbn [Str.split_ws]. destruct (Str.isspace c) eqn:Hc; [exact IH|].
  assert (no_space c = true) as Hn by (unfold no_space; rewrite Hc; reflexivity).
  destruct s as [|d s]; [repeat constructor; simpl; rewrite Hn; reflexivity|].
  destruct (Str.isspace d) eqn:Hd.
  - constructor; [simpl; rewrite Hn; reflexivity | exact IH].
  - destruct (Str.split_ws (String d s)) as [|w ws].
    + repeat constructor. simpl. rewrite Hn. reflexivity.
    + inversion IH as [|? ? Hw Hws]; subst. constructor; [|exact Hws].
      cbn [Str.all]. rewrite Hn. exact Hw.
Qed.

Lemma split_ws_all (P : ascii -> bool) (s : string) :
  Str.all P s = true -> Forall (fun w => Str.all P w = true) (Str.split_ws s).
Proof.
  induction s as [|c s IH]; [constructor|].
  cbn [Str.all]. intros [Hc Hs]%andb_prop. specialize (IH Hs).
  cbn [Str.split_ws]. destruct (Str.isspace c); [exact IH|].
  destruct s as [|d s]; [repeat constructor; simpl; rewrite Hc; reflexivity|].
  destruct (Str.isspace d).
  - constructor; [simpl; rewrite Hc; reflexivity | exact IH].
  - destruct (Str.split_ws (String d s)) as [|w ws].
    + repeat constructor. simpl. rewrite Hc. reflexivity.
    + inversion IH as [|? ? Hw Hws]; subst. constructor; [|exact Hws].
      cbn [Str.all]. rewrite Hc. exact Hw.
Qed.

(** A target is one word of the text behind the operator. *)
Lemma redirect_target_word (rest path : string) :
  redirect_target rest = Ok (Some path) ->
  Str.truthy path = true
  /\ Str.all no_space path = true
  /\ (forall P, Str.all P rest = true -> Str.all P path = true)
  /\ (no_gtgt rest = true -> no_gtgt path = true).
Proof.
  intros Ht. split; [eapply redirect_target_truthy, Ht|].
  unfold redirect_target in Ht.
  destruct (Str.truthy (Str.strip rest)); [|discriminate].
  pose proof (split_ws_no_space (Str.strip rest)) as Hns.
  destruct (Str.split_ws (Str.strip rest)) as [|w ws] eqn:Hw; [discriminate|].
  injection Ht as ->. split; [|split].
  - inversion Hns; assumption.
  - intros P HP. apply (all_strip P) in HP. apply split_ws_all in HP.
    rewrite Hw in HP. inversion HP; assumption.
  - intros Hg. unfold Str.strip in Hw.
    apply no_gtgt_lstrip, no_gtgt_rstrip, no_gtgt_split_ws in Hg.
    rewrite Hw in Hg. inversion Hg; assumption.
Qed.

(** The characters of the tokens are characters of the text. *)
Lemma read_tokens_all (P : ascii -> bool) (s : string) :
  P Shlex.escape = true ->
  Str.all P s = true ->
  forall state token quoted tokens,
    Str.all P token = true ->
    Shlex.read_tokens s state token quoted = Ok tokens ->
    Forall (fun t => Str.all P t = true) tokens.
Proof.
  intros Hesc. induction s as [|c s IH]; intros Hs state token quoted tokens Htok.
  - destruct state; cbn [Shlex.read_tokens]; try discriminate;
      intros [= <-]; unfold Shlex.emit;
      destruct (Str.truthy token || quoted); repeat constructor; exact Htok.
  - cbn [Str.all] in Hs. apply andb_prop in Hs as [Hc Hs]. specialize (IH Hs).
    assert (forall t, Str.all P t = true -> Str.all P (Shlex.snoc t c) = true)
      as Hsnoc.
    { intros t Ht. unfold Shlex.snoc. rewrite all_app, Ht. simpl.
      rewrite Hc. reflexivity. }
    assert (forall t, Str.all P t = true ->
                      Str.all P (Shlex.snoc t Shlex.escape) = true) as Hsnoce.
    { intros t Ht. unfold Shlex.snoc. rewrite all_app, Ht. simpl.
      rewrite Hesc. reflexivity. }
    assert (Str.all P (String c EmptyString) = true) as Hone
      by (simpl; rewrite Hc; reflexivity).
    assert (forall r, res_map (cons token)
                        (Shlex.read_tokens s Shlex.InWhitespace EmptyString false)
                      = Ok r -> Forall (fun t => Str.all P t = true) r) as Hemit.
    { intros r (r' & Hr' & ->)%res_map_ok. constructor; [exact Htok|].
      eapply IH; [|exact Hr']. reflexivity. }
    destruct state as [| |q|back]; cbn [Shlex.read_tokens].
    + destruct (Str.mem c Shlex.whitespace).
      * destruct (Str.truthy token || quoted); [apply Hemit | apply IH, Htok].
      * destruct (Ascii.eqb c Shlex.escape); [apply IH, Htok|].
        destruct (Str.mem c Shlex.quotes); [apply IH, Htok | apply IH, Hone].
    + destruct (Str.mem c Shlex.whitespace).
      * destruct (Str.truthy token || quoted); [apply Hemit | apply IH, Htok].
      * destruct (Str.mem c Shlex.quotes); [apply IH, Htok|].
        destruct (Ascii.eqb c Shlex.escape); [apply IH, Htok | apply IH; auto].
    + destruct (Ascii.eqb c q); [apply IH, Htok|].
      destruct (Ascii.eqb c Shlex.escape && Str.mem q Shlex.escapedquotes);
        apply IH; auto.
    + destruct back as [| |q|back'];
        [apply IH; auto | apply IH; auto | | apply IH; auto].
      destruct (negb (Ascii.eqb c Shlex.escape) && negb (Ascii.eqb c q));
        apply IH; auto.
Qed.

(** Every stage the parser returns is a [parsed_stage]. *)
Lemma parse_segment_parsed (part : string) (st : stage) :
  Str.all no_pipe part = true ->
  parse_segment part = Ok st -> parsed_stage st.
Proof.
  intros Hpart. unfold parse_segment, parsed_stage, target_ok.
  assert (forall text argv, Str.all no_pipe text = true ->
            Shlex.split text = Ok argv ->
            Forall (fun arg => Str.all no_pipe arg = true) argv) as Hargs.
  { intros text argv Ht Hsplit.
    eapply (read_tokens_all no_pipe text); [reflexivity | exact Ht | | exact Hsplit].
    reflexivity. }
  destruct (Str.cut ">>" part) as [[before rest]|] eqn:Hcut2.
  - destruct (all_cut no_pipe _ _ _ _ Hcut2 Hpart) as [Hb Hr].
    destruct (redirect_target rest) as [out_path|] eqn:Ht; [|discriminate].
    cbn [res_bind]. destruct (Shlex.split before) as [argv|] eqn:Hs; [|discriminate].
    intros [= <-]. cbn [fst snd]. split; [exact (Hargs before argv Hb Hs)|].
    destruct out_path as [path|]; [|exact I].
    destruct (redirect_target_word rest path Ht) as (H1 & H2 & H3 & _).
    repeat split; auto. discriminate.
  - destruct (Str.cut ">" part) as [[before rest]|] eqn:Hcut1.
    + destruct (all_cut no_pipe _ _ _ _ Hcut1 Hpart) as [Hb Hr].
      destruct (redirect_target rest) as [out_path|] eqn:Ht; [|discriminate].
      cbn [res_bind]. destruct (Shlex.split before) as [argv|] eqn:Hs; [|discriminate].
      intros [= <-]. cbn [fst snd]. split; [exact (Hargs before argv Hb Hs)|].
      destruct out_path as [path|]; [|exact I].
      destruct (redirect_target_word rest path Ht) as (H1 & H2 & H3 & H4).
      repeat split; auto. intros _. apply H4.
      apply cut_gtgt_none in Hcut2. eapply no_gtgt_cut; eauto.
    + destruct (Shlex.split part) as [argv|] eqn:Hs; [|discriminate].
      intros [= <-]. cbn [fst snd].
      split; [exact (Hargs part argv Hpart Hs) | exact I].
Qed.

(** * Parsing the text of a stage again *)

Lemma no_gt_no_gtgt (x : string) : Str.all no_gt x = true -> no_gtgt x = true.
Proof.
  intros Hx. rewrite <- (append_empty_r x).
  apply no_gt_no_gtgt_app; [exact Hx | reflexivity].
Qed.

Lemma parse_no_redirect (text : string) (argv : list string) :
  Str.all no_gt text = true ->
  Shlex.split text = Ok argv ->
  parse_segment text = Ok (argv, None, false).
Proof.
  intros Hgt Hsplit. unfold parse_segment.
  rewrite (proj1 (cut_gtgt_none text) (no_gt_no_gtgt text Hgt)).
  rewrite (cut_gt_none text Hgt), Hsplit. reflexivity.
Qed.

Lemma lstrip_tight (c : ascii) (s : string) :
  Str.isspace c = false -> Str.lstrip (String c s) = String c s.
Proof. intros Hc. cbn [Str.lstrip]. rewrite Hc. reflexivity. Qed.

(** A word is its own and only word. *)
Lemma split_ws_word (path : string) :
  Str.truthy path = true -> Str.all no_space path = true ->
  Str.split_ws path = [path].
Proof.
  induction path as [|c path IH]; [discriminate|]. intros _.
  cbn [Str.all]. intros [Hc Hpath]%andb_prop.
  unfold no_space in Hc. apply negb_true_iff in Hc.
  cbn [Str.split_ws]. rewrite Hc. destruct path as [|d path]; [reflexivity|].
  pose proof Hpath as Hd. cbn [Str.all] in Hd. apply andb_prop in Hd as [Hd _].
  unfold no_space in Hd. apply negb_true_iff in Hd. rewrite Hd.
  rewrite (IH eq_refl Hpath). reflexivity.
Qed.

Lemma redirect_target_of_word (path : string) :
  Str.truthy path = true -> Str.all no_space path = true ->
  redirect_target (String " " path) = Ok (Some path).
Proof.
  intros Ht Hns. unfold redirect_target.
  assert (Str.strip (String " " path) = path) as ->.
  { unfold Str.strip. change (Str.lstrip (String " " path)) with (Str.lstrip path).
    destruct path as [|c path]; [discriminate|].
    pose proof Hns as Hc. cbn [Str.all] in Hc. apply andb_prop in Hc as [Hc _].
    unfold no_space in Hc. apply negb_true_iff in Hc.
    rewrite (lstrip_tight c path Hc).
    apply rstrip_tight, ends_tight_no_space, Hns. }
  rewrite Ht, (split_ws_word path Ht Hns). reflexivity.
Qed.

Lemma parse_redirect_append (text path : string) (argv : list string) :
  Str.all no_gt text = true ->
  Shlex.split text = Ok argv ->
  Str.truthy path = true -> Str.all no_space path = true ->
  parse_segment (text +:+ String ">" (String ">" (String " " path)))
  = Ok (argv, Some path, true).
Proof.
  intros Hgt Hsplit Ht Hns. unfold parse_segment.
  rewrite (cut_gtgt text _ Hgt), (redirect_target_of_word path Ht Hns).
  cbn [res_bind]. rewrite Hsplit. reflexivity.
Qed.

Lemma parse_redirect_truncate (text path : string) (argv : list string) :
  Str.all no_gt text = true ->
  Shlex.split text = Ok argv ->
  Str.truthy path = true -> Str.all no_space path = true ->
  no_gtgt path = true ->
  parse_segment (text +:+ String ">" (String " " path))
  = Ok (argv, Some path, false).
Proof.
  intros Hgt Hsplit Ht Hns Hgg. unfold parse_segment.
  assert (no_gtgt (text +:+ String ">" (String " " path)) = true) as Hnone.
  { apply no_gt_no_gtgt_app; [exact Hgt|].
    rewrite no_gtgt_cons. destruct path as [|c path]; [reflexivity|].
    rewrite no_gtgt_cons. exact Hgg. }
  rewrite (proj1 (cut_gtgt_none _) Hnone).
  rewrite (cut_gt text _ Hgt), (redirect_target_of_word path Ht Hns).
  cbn [res_bind]. rewrite Hsplit. reflexivity.
Qed.

Lemma strip_app_space (t : string) : Str.strip (t +:+ " ") = Str.strip t.
Proof.
  unfold Str.strip. induction t as [|c t IH]; [reflexivity|].
  change (String c t +:+ " ") with (String c (t +:+ " ")).
  cbn [Str.lstrip]. destruct (Str.isspace c); [exact IH|].
  apply (rstrip_app_space (String c t)).
Qed.

Lemma strip_padded (pre t post : string) :
  pre = EmptyString \/ pre = " " ->
  post = EmptyString \/ post = " " ->
  Str.strip (pre +:+ t +:+ post) = Str.strip t.
Proof.
  assert (forall x, Str.strip (String " " x) = Str.strip x) as Hsp
    by reflexivity.
  intros [-> | ->] [-> | ->];
    change (EmptyString +:+ ?x) with x;
    change (" " +:+ ?x) with (String " " x);
    rewrite ?Hsp, ?append_empty_r, ?strip_app_space; reflexivity.
Qed.

Lemma strip_tight (c : ascii) (s : string) :
  Str.isspace c = false -> ends_tight (String c s) = true ->
  Str.strip (String c s) = String c s.
Proof.
  intros Hc Hend. unfold Str.strip.
  rewrite (lstrip_tight c s Hc). apply rstrip_tight, Hend.
Qed.

(** The text of a stage, stripped, is parsed into the stage. *)
Lemma parse_stage_text (st : stage) :
  parsed_stage st -> args_without_gt st ->
  parse_segment (Str.strip (stage_text st)) = Ok (without_idle_mode st).
Proof.
  destruct st as [[argv out_path] append].
  unfold parsed_stage, args_without_gt, target_ok. cbn [fst snd].
  intros [_ Hpath] Hgt. unfold stage_text, without_idle_mode.
  pose proof (all_join_quote no_gt argv eq_refl eq_refl eq_refl Hgt) as HT.
  destruct argv as [|arg argv].
  - (* no argument: the text is the redirection alone *)
    cbn [map Str.join]. destruct out_path as [path|]; [|reflexivity].
    destruct Hpath as (Ht & Hns & _ & Hgg).
    assert (ends_tight path = true) as Hend by apply ends_tight_no_space, Hns.
    destruct path as [|c path]; [discriminate|].
    destruct append.
    + change (EmptyString +:+ " >> " +:+ String c path)
        with (String " " (String ">" (String ">" (String " " (String c path))))).
      unfold Str.strip.
      change (Str.lstrip (String " " ?x)) with (Str.lstrip x).
      rewrite lstrip_tight by reflexivity.
      rewrite rstrip_tight by exact Hend.
      apply (parse_redirect_append EmptyString); auto.
    + change (EmptyString +:+ " > " +:+ String c path)
        with (String " " (String ">" (String " " (String c path)))).
      unfold Str.strip.
      change (Str.lstrip (String " " ?x)) with (Str.lstrip x).
      rewrite lstrip_tight by reflexivity.
      rewrite rstrip_tight by exact Hend.
      apply (parse_redirect_truncate EmptyString); auto.
  - (* the text starts with the first argument *)
    destruct (join_quote_shape arg argv) as [(c & r & HTc & Hc) Hend].
    set (T := Str.join " " (map Shlex.quote (arg :: argv))) in *.
    assert (Str.all no_gt (T +:+ " ") = true) as HT1
      by (rewrite all_app, HT; reflexivity).
    destruct out_path as [path|].
    + destruct Hpath as (Ht & Hns & _ & Hgg).
      assert (ends_tight path = true) as Hendp by apply ends_tight_no_space, Hns.
      destruct path as [|d path]; [discriminate|].
      assert (forall op, Str.strip (T +:+ op +:+ String d path)
                         = T +:+ op +:+ String d path) as Hstrip.
      { intros op. rewrite HTc.
        change (String c r +:+ ?x) with (String c (r +:+ x)).
        apply strip_tight; [exact Hc|].
        change (String c (r +:+ op +:+ String d path))
          with (String c r +:+ op +:+ String d path).
        rewrite <- append_assoc, ends_tight_app. exact Hendp. }
      destruct append; rewrite Hstrip.
      * change (T +:+ " >> " +:+ String d path)
          with (T +:+ " " +:+ String ">" (String ">" (String " " (String d path)))).
        rewrite <- append_assoc.
        apply parse_redirect_append; auto. apply read_args. auto.
      * change (T +:+ " > " +:+ String d path)
          with (T +:+ " " +:+ String ">" (String " " (String d path))).
        rewrite <- append_assoc.
        apply parse_redirect_truncate; auto. apply read_args. auto.
    + rewrite append_empty_r, HTc, (strip_tight c r Hc) by (rewrite <- HTc; exact Hend).
      rewrite <- HTc. apply parse_no_redirect; [exact HT|].
      rewrite <- (append_empty_r T). apply read_args. auto.
Qed.

Lemma all_stage_text (st : stage) :
  parsed_stage st -> Str.all no_pipe (stage_text st) = true.
Proof.
  destruct st as [[argv out_path] append].
  unfold parsed_stage, target_ok, stage_text. cbn [fst snd].
  intros [Hargs Hpath].
  rewrite all_app, (all_join_quote no_pipe argv eq_refl eq_refl eq_refl Hargs).
  destruct out_path as [path|]; [|reflexivity].
  destruct Hpath as (_ & _ & Hp & _). rewrite all_app, Hp.
  destruct append; reflexivity.
Qed.

Lemma split_on_pipe_app (x y : string) :
  Str.all no_pipe x = true ->
  Str.split_on "|" (x +:+ String "|" y) = x :: Str.split_on "|" y.
Proof.
  induction x as [|c x IH]; [reflexivity|].
  cbn [Str.all]. intros [Hc Hx]%andb_prop.
  change (String c x +:+ String "|" y) with (String c (x +:+ String "|" y)).
  cbn [Str.split_on]. unfold no_pipe in Hc. apply negb_true_iff in Hc.
  rewrite Hc, (IH Hx). reflexivity.
Qed.

Lemma split_on_pipe_none (x : string) :
  Str.all no_pipe x = true -> Str.split_on "|" x = [x].
Proof.
  induction x as [|c x IH]; [reflexivity|].
  cbn [Str.all]. intros [Hc Hx]%andb_prop.
  cbn [Str.split_on]. unfold no_pipe in Hc. apply negb_true_iff in Hc.
  rewrite Hc, (IH Hx). reflexivity.
Qed.

(** The texts of the stages, joined with pipes, are parsed stage by
    stage. *)
Lemma parse_joined_texts (st : stage) (p : list stage) (pre : string) :
  pre = EmptyString \/ pre = " " ->
  Forall parsed_stage (st :: p) ->
  Forall args_without_gt (st :: p) ->
  parse_parts
    (map Str.strip
       (Str.split_on "|" (pre +:+ Str.join " | " (map stage_text (st :: p)))))
  = Ok (map without_idle_mode (st :: p)).
Proof.
  revert st pre. induction p as [|st' p IH]; intros st pre Hpre Hparsed Hgt.
  - inversion Hparsed as [|? ? Hst _]; subst.
    inversion Hgt as [|? ? Hst' _]; subst.
    cbn [map Str.join]. rewrite split_on_pipe_none.
    + cbn [map parse_parts].
      rewrite <- (append_empty_r (pre +:+ stage_text st)), append_assoc.
      rewrite strip_padded by auto.
      rewrite (parse_stage_text st Hst Hst'). reflexivity.
    + rewrite all_app, (all_stage_text st Hst).
      destruct Hpre as [-> | ->]; reflexivity.
  - inversion Hparsed as [|? ? Hst Hrest]; subst.
    inversion Hgt as [|? ? Hst' Hrest']; subst.
    change (Str.join " | " (map stage_text (st :: st' :: p)))
      with (stage_text st +:+ " " +:+
            String "|" (" " +:+ Str.join " | " (map stage_text (st' :: p)))).
    rewrite <- !append_assoc. rewrite split_on_pipe_app.
    + cbn [map parse_parts]. rewrite append_assoc.
      rewrite strip_padded by auto.
      rewrite (parse_stage_text st Hst Hst'). cbn [res_bind].
      pose proof (IH st' " " (or_intror eq_refl) Hrest Hrest') as IH'.
      cbn [map] in IH'. rewrite IH'. reflexivity.
    + rewrite !all_app, (all_stage_text st Hst).
      destruct Hpre as [-> | ->]; reflexivity.
Qed.

Lemma parse_parts_parsed (parts : list string) (p : list stage) :
  Forall (fun part => Str.all no_pipe part = true) parts ->
  parse_parts parts = Ok p -> Forall parsed_stage p.
Proof.
  intros Hparts. revert p.
  induction Hparts as [|part parts Hpart _ IH]; intros p; cbn [parse_parts].
  - intros [= <-]. constructor.
  - destruct (parse_segment part) as [st|] eqn:Hseg; [|discriminate].
    cbn [res_bind]. intros (p' & Hp' & ->)%res_map_ok.
    constructor; [eapply parse_segment_parsed; eauto | auto].
Qed.

Lemma split_on_pipe_no_pipe (s : string) :
  Forall (fun seg => Str.all no_pipe seg = true) (Str.split_on "|" s).
Proof.
  induction s as [|c s IH]; [repeat constructor|].
  cbn [Str.split_on]. destruct (Ascii.eqb c "|") eqn:Hc.
  - constructor; [reflexivity | exact IH].
  - assert (no_pipe c = true) as Hn by (unfold no_pipe; rewrite Hc; reflexivity).
    destruct (Str.split_on "|" s) as [|seg segs].
    + repeat constructor. simpl. rewrite Hn. reflexivity.
    + inversion IH as [|? ? Hseg Hsegs]; subst.
      constructor; [|exact Hsegs]. cbn [Str.all]. rewrite Hn. exact Hseg.
Qed.

(** C7 as stated does not hold: the pipeline of the line [a>b>>] is
    reconstructed as the quoted argument alone, which the parser cuts at
    the [>] between the quotes. *)
Lemma reparse_fails_on_quoted_redirection :
  parse_command_line "a>b>>" = Ok [(["a>b"], None, true)]
  /\ reconstruct [(["a>b"], None, true)] = "'a>b'"
  /\ parse_command_line (reconstruct [(["a>b"], None, true)])
     = Raise (ValueError "No closing quotation").
Proof. repeat split; vm_compute; reflexivity. Qed.

(** C7, amended: for the pipeline of every line, when no argument contains
    [>], parsing the reconstruction returns the same stages, argument by
    argument and target by target, with the same mode for every stage that
    has a target. *)
Theorem reparse_of_reconstruction (line : string) (p : list stage) :
  parse_command_line line = Ok p ->
  Forall args_without_gt p ->
  parse_command_line (reconstruct p) = Ok (map without_idle_mode p).
Proof.
  intros Hparse Hgt.
  assert (Forall parsed_stage p) as Hparsed.
  { unfold parse_command_line in Hparse.
    eapply parse_parts_parsed; [|exact Hparse].
    apply Forall_fmap. eapply Forall_impl; [apply split_on_pipe_no_pipe|].
    intros seg Hseg. apply all_strip, Hseg. }
  destruct p as [|st p].
  - apply parse_parts_lookup in Hparse as [Hlen _].
    rewrite length_map, length_split_on in Hlen. discriminate Hlen.
  - unfold parse_command_line, reconstruct.
    apply (parse_joined_texts st p EmptyString); auto.
Qed.

Lemma reparse_of_reconstruction_witness :
  parse_command_line
    (reconstruct
       [(["echo"; "it's"; "a b"; EmptyString], Some "out.txt", true);
        ([], None, false); (["grep"; "x"], Some "y", false)])
  = Ok (map without_idle_mode
          [(["echo"; "it's"; "a b"; EmptyString], Some "out.txt", true);
           ([], None, false); (["grep"; "x"], Some "y", false)]).
Proof.
  apply (reparse_of_reconstruction
           "echo 'it'\''s' 'a b' '' >> out.txt || grep x > y").
  - vm_compute. reflexivity.
  - repeat constructor.
Defined.

(** * More properties of the runner *)

Section Frame.
Context {X : Type} (E : Env X).


Lemma deliver_frame (out_path : option string) (append : bool)
    (out_text : string) (w : world X) :
  terminal (snd (deliver E out_path append out_text w)) = terminal w
  /\ executed (snd (deliver E out_path append out_text w)) = executed w
  /\ (exists extra,
        sys_stderr (snd (deliver E out_path append out_text w))
        = sys_stderr w ++ extra)
  /\ sys_stdout (snd (deliver E out_path append out_text w)) = sys_stdout w.
Proof.
  assert (exists extra : list string, sys_stderr w = sys_stderr w ++ extra)
    as Hnil by (exists []; rewrite app_nil_r; reflexivity).
  unfold deliver. destruct out_path as [path|]; [|cbn; auto].
  destruct (Str.truthy path); [|cbn; auto].
  destruct (write_file E path append out_text (os w)) as [[e|] o].
  - destruct (is_Exception e); cbn; repeat split; eauto.
  - cbn. auto.
Qed.



End Frame.




(** X4: when a stage is reached whose builtin handler raises an
    [Exception], [run_pipeline] returns at once: the handler's own
    diagnostics are followed by one more, [<cmd>: error: <message>], what the
    handler printed stays in its buffer, [sys.stdout] is bound as before,
    and the stages after it change nothing. *)
Theorem failing_builtin_ends_pipeline {X} (E : Env X)
    (pre post : list stage) (cmd : string) (handler : builtin)
    (args : list string) (out_path : option string) (append : bool)
    (data : option string) (w w1 : world X) (e : exn) :
  BUILTINS !! cmd = Some handler ->
  run_stages E pre None w = (Continue data, w1) ->
  raised (call_builtin E handler args data (os w1)) = Some e ->
  is_Exception e = true ->
  run_pipeline E (pre ++ (cmd :: args, out_path, append) :: post) w
  = (Returned,
     eprint (cmd +:+ ": error: " +:+ exn_str e)
       (after_handler (call_builtin E handler args data (os w1))
          (log_run (cmd :: args) w1))).
Proof.
  intros Hcmd Hpre Hraised Hexc. unfold run_pipeline.
  rewrite run_stages_app, Hpre. cbn [run_stages run_stage].
  rewrite (capture_builtin E cmd handler args data _ Hcmd). cbn zeta.
  cbn [log_run os]. rewrite Hraised.
  destruct e; try discriminate Hexc; reflexivity.
Qed.

Lemma failing_builtin_ends_pipeline_witness :
  run_pipeline Demo.env
    ([] ++ (["touch"; "x"], None, false) :: [(["pwd"], None, false)])
    Demo.boot
  = (Returned,
     eprint ("touch" +:+ ": error: " +:+ "[Errno 13] Permission denied")
       (after_handler
          (call_builtin Demo.env builtin_touch ["x"] None (os Demo.boot))
          (log_run ["touch"; "x"] Demo.boot))).
Proof.
  apply (failing_builtin_ends_pipeline Demo.env [] [(["pwd"], None, false)]
           "touch" builtin_touch ["x"] None false None Demo.boot Demo.boot
           (OtherError "[Errno 13] Permission denied")).
  - vm_compute. reflexivity.
  - reflexivity.
  - reflexivity.
  - reflexivity.
Defined.

Lemma BUILTINS_cat : BUILTINS !! "cat" = Some builtin_cat.
Proof. vm_compute. reflexivity. Qed.

(** X5: a [cat] stage without arguments hands on the text it receives as
    it is; it leaves the operating system, the terminal and the diagnostics
    alone, so that a pipeline ending in such a stage shows what the
    pipeline without it shows. *)
Theorem cat_stage_hands_text_on {X} (E : Env X) (p : list stage)
    (text : string) (w w1 : world X) :
  run_stages E p None w = (Continue (Some text), w1) ->
  run_stage E (["cat"], None, false) (Some text) w1
  = (Continue (Some text),
     World (os w1) (sys_stdout w1) (terminal w1) (buffers w1 ++ [text])
           (sys_stderr w1) (executed w1 ++ [["cat"]]))
  /\ fst (run_pipeline E (p ++ [(["cat"], None, false)]) w)
     = fst (run_pipeline E p w)
  /\ terminal (snd (run_pipeline E (p ++ [(["cat"], None, false)]) w))
     = terminal (snd (run_pipeline E p w))
  /\ os (snd (run_pipeline E (p ++ [(["cat"], None, false)]) w))
     = os (snd (run_pipeline E p w))
  /\ sys_stderr (snd (run_pipeline E (p ++ [(["cat"], None, false)]) w))
     = sys_stderr (snd (run_pipeline E p w)).
Proof.
  intros Hp.
  assert (run_stage E (["cat"], None, false) (Some text) w1
          = (Continue (Some text),
             World (os w1) (sys_stdout w1) (terminal w1) (buffers w1 ++ [text])
                   (sys_stderr w1) (executed w1 ++ [["cat"]]))) as Hcat.
  { cbn [run_stage].
    rewrite (capture_builtin E "cat" builtin_cat [] (Some text) _ BUILTINS_cat).
    unfold after_handler. cbn. rewrite app_nil_r. reflexivity. }
  split; [exact Hcat|].
  unfold run_pipeline. rewrite run_stages_app, Hp.
  cbn [run_stages]. rewrite Hcat.
  destruct (Str.truthy text); [|repeat split; reflexivity].
  unfold write_stdout. cbn [sys_stdout].
  destruct (sys_stdout w1); repeat split; reflexivity.
Qed.

Lemma cat_stage_hands_text_on_witness :
  fst (run_pipeline Demo.env
         ([(["echo"; "hi"], None, false)] ++ [(["cat"], None, false)])
         Demo.boot)
  = fst (run_pipeline Demo.env [(["echo"; "hi"], None, false)] Demo.boot)
  /\ terminal
       (snd (run_pipeline Demo.env
               ([(["echo"; "hi"], None, false)] ++ [(["cat"], None, false)])
               Demo.boot))
     = terminal
         (snd (run_pipeline Demo.env [(["echo"; "hi"], None, false)]
                 Demo.boot)).
Proof.
  destruct (cat_stage_hands_text_on Demo.env [(["echo"; "hi"], None, false)]
              ("hi" +:+ newline) Demo.boot
              (log_run ["echo"; "hi"] Demo.boot) eq_refl)
    as (_ & Hfst & Hterm & _).
  split; [exact Hfst | exact Hterm].
Defined.

(** The names of the two handlers that call [sys.exit]. *)
Lemma BUILTINS_exit_names (cmd : string) (handler : builtin) :
  BUILTINS !! cmd = Some handler ->
  handler = builtin_exit \/ handler = builtin_elevate ->
  In cmd exit_names.
Proof.
  unfold BUILTINS. intros Hin%elem_of_list_to_map_2 Hhandler.
  repeat (apply elem_of_cons in Hin as [Hin|Hin];
          [injection Hin as -> ->;
           first [ destruct Hhandler as [Hh|Hh]; discriminate Hh
                 | cbn; tauto ]
          |]).
  apply elem_of_nil in Hin. destruct Hin.
Qed.

Lemma call_builtin_system_exit {X} (E : Env X) (handler : builtin)
    (args : list string) (stdin : option string) (o : os_state X) :
  exits_by_sys_exit_only E ->
  raised (call_builtin E handler args stdin o) = Some SystemExit ->
  handler = builtin_exit \/ handler = builtin_elevate.
Proof.
  intros (Hos & _ & _) Hraised.
  destruct handler; auto; exfalso; cbn in Hraised;
    repeat match type of Hraised with
           | context [match ?x with _ => _ end] => destruct x
           end;
    try discriminate Hraised;
    (eapply Hos; [|exact Hraised]; discriminate).
Qed.

Lemma run_stage_system_exit {X} (E : Env X) (st : stage)
    (data : option string) (w w' : world X) :
  exits_by_sys_exit_only E ->
  run_stage E st data w = (Propagate SystemExit, w') ->
  exists cmd args, st.1.1 = cmd :: args /\ In cmd exit_names.
Proof.
  intros Hwell. pose proof Hwell as (_ & Hpopen & Hwrite).
  destruct st as [[argv out_path] append]. destruct argv as [|cmd args];
    [discriminate|]. cbn [run_stage fst snd].
  destruct (capture E cmd args data (log_run (cmd :: args) w))
    as [[out_text|c] w1] eqn:Hcap.
  - unfold deliver, write_file. destruct out_path as [path|]; [|discriminate].
    destruct (Str.truthy path); [|discriminate].
    destruct (write_error E (os w1) (resolve E (os w1) path) append out_text)
      as [[e o]|] eqn:Hw; [|discriminate].
    destruct e; cbn; try discriminate. intros _.
    destruct (Hwrite _ _ _ _ _ Hw).
  - intros [= -> ->]. revert Hcap.
    destruct (BUILTINS !! cmd) as [handler|] eqn:Hcmd.
    + rewrite (capture_builtin E cmd handler args data _ Hcmd). cbn zeta.
      destruct (raised (call_builtin E handler args data
                          (os (log_run (cmd :: args) w)))) as [e|] eqn:Hr;
        [|discriminate].
      destruct e; cbn; try discriminate. intros _.
      exists cmd, args. split; [reflexivity|].
      eapply BUILTINS_exit_names; [exact Hcmd|].
      eapply call_builtin_system_exit; eauto.
    + unfold capture. rewrite Hcmd.
      destruct (popen E (cmd :: args) data (os (log_run (cmd :: args) w)))
        as [[[out_text err]|e] o] eqn:Hp; [discriminate|].
      destruct e; cbn; try discriminate. intros _.
      destruct (Hpopen _ _ _ _ Hp).
Qed.

(** X6: in an environment where [SystemExit] comes from [sys.exit] only,
    [run_pipeline] raises it only for a pipeline with a stage whose command
    is [exit], [quit], [elevate], [admin] or [sudo]. *)
Theorem only_exit_names_raise_system_exit {X} (E : Env X) (p : list stage)
    (w w' : world X) :
  exits_by_sys_exit_only E ->
  run_pipeline E p w = (Raised SystemExit, w') ->
  exists st cmd args,
    In st p /\ st.1.1 = cmd :: args /\ In cmd exit_names.
Proof.
  intros Hwell. unfold run_pipeline.
  destruct (run_stages E p None w) as [[[text|]| |e] w1] eqn:Hrun;
    try discriminate.
  intros [= -> ->]. revert Hrun. generalize (@None string) as data. revert w.
  induction p as [|st p IH]; intros w data; [discriminate|].
  cbn [run_stages].
  destruct (run_stage E st data w) as [[data1| |e1] w2] eqn:Hst.
  - intros Hrun. destruct (IH _ _ Hrun) as (st' & cmd & args & Hin & Hst').
    exists st', cmd, args. split; [right; exact Hin | exact Hst'].
  - discriminate.
  - intros [= -> ->].
    destruct (run_stage_system_exit E st data w w' Hwell Hst)
      as (cmd & args & Hargv & Hname).
    exists st, cmd, args. split; [left; reflexivity | auto].
Qed.

Lemma demo_exits_by_sys_exit_only : exits_by_sys_exit_only Demo.env.
Proof.
  split; [|split].
  - intros b args stdin o _. destruct b; discriminate.
  - intros argv data o o'. cbn. unfold Demo.demo_popen.
    repeat case_match; discriminate.
  - intros o target append text o'. cbn. unfold Demo.demo_write_error.
    case_match; discriminate.
Qed.

Lemma only_exit_names_raise_system_exit_witness :
  exists (st : stage) cmd args,
    In st [(["pwd"], None, false); (["quit"; "now"], None, false)]
    /\ st.1.1 = cmd :: args /\ In cmd exit_names.
Proof.
  apply (only_exit_names_raise_system_exit Demo.env
           [(["pwd"], None, false); (["quit"; "now"], None, false)]
           Demo.boot
           (after_exit ["quit"; "now"]
              (snd (run_stages Demo.env [(["pwd"], None, false)] None
                      Demo.boot)))).
  - exact demo_exits_by_sys_exit_only.
  - vm_compute. reflexivity.
Defined.

(** * More properties of the loop of [main] *)

(** X7: one turn of the loop ends the loop exactly when the line is a
    pipeline whose run raises [SystemExit]; a blank line, [help], an
    exception of the parser, a [KeyboardInterrupt] and a pipeline that
    returns all lead to the next prompt. *)
Theorem main_loop_ends_on_system_exit_only {X} (E : Env X) (line : string)
    (w : world X) :
  fst (main_step E line w) = Break
  <-> (Str.truthy (Str.strip line) = true
       /\ String.eqb (Str.strip line) "help" = false
       /\ exists p w',
            parse_command_line line = Ok p
            /\ run_pipeline E p w = (Raised SystemExit, w')).
Proof.
  split.
  - unfold main_step.
    destruct (Str.truthy (Str.strip line)); [|discriminate]. cbn [negb].
    destruct (String.eqb (Str.strip line) "help"); [discriminate|].
    destruct (parse_command_line line) as [p|e] eqn:Hparse.
    + destruct (run_pipeline E p w) as [[|e] w'] eqn:Hrun; [discriminate|].
      destruct e; try discriminate. intros _. eauto 6.
    + destruct (parse_parts_raises _ e Hparse) as [-> | ->]; discriminate.
  - intros (Hline & Hhelp & p & w' & Hparse & Hrun).
    rewrite (main_step_exit E line p w w' Hline Hhelp Hparse Hrun).
    reflexivity.
Qed.

Lemma main_loop_ends_on_system_exit_only_witness :
  fst (main_step Demo.env " pwd | quit " Demo.boot) = Break.
Proof.
  apply (proj2 (main_loop_ends_on_system_exit_only Demo.env " pwd | quit "
                  Demo.boot)).
  split; [reflexivity|]. split; [reflexivity|].
  eexists _, _. split; vm_compute; reflexivity.
Defined.

(** * More properties of the parser *)

Lemma parse_segment_without_gt (text : string) :
  Str.all no_gt text = true ->
  parse_segment text
  = res_map (fun argv => (argv, None, false)) (Shlex.split text).
Proof.
  intros Hgt. unfold parse_segment.
  rewrite (proj1 (cut_gtgt_none text) (no_gt_no_gtgt text Hgt)).
  rewrite (cut_gt_none text Hgt).
  destruct (Shlex.split text); reflexivity.
Qed.

(** X8: a line without pipe and without [>] is parsed into one stage
    without redirection, whose arguments are the tokens of the stripped
    line; it is refused when the tokenizer refuses the stripped line. *)
Theorem line_without_operators_is_one_stage (line : string) :
  Str.all no_pipe line = true ->
  Str.all no_gt line = true ->
  parse_command_line line
  = res_map (fun argv => [(argv, None, false)])
      (Shlex.split (Str.strip line)).
Proof.
  intros Hpipe Hgt. unfold parse_command_line.
  rewrite (split_on_pipe_none line Hpipe). cbn [map parse_parts].
  rewrite (parse_segment_without_gt (Str.strip line))
    by (apply all_strip, Hgt).
  destruct (Shlex.split (Str.strip line)); reflexivity.
Qed.

Lemma line_without_operators_is_one_stage_witness :
  parse_command_line "  grep -i 'two words' file.txt "
  = res_map (fun argv => [(argv, None, false)])
      (Shlex.split (Str.strip "  grep -i 'two words' file.txt ")).
Proof.
  apply line_without_operators_is_one_stage; reflexivity.
Defined.

(** X9: in every stage that [parse_command_line] returns, no argument
    contains a pipe, and a redirection target is one word: not empty,
    without whitespace and without pipe. *)
Theorem parsed_stages_have_word_targets (line : string) (p : list stage) :
  parse_command_line line = Ok p ->
  Forall (fun st : stage =>
            Forall (fun arg => Str.all no_pipe arg = true) st.1.1
            /\ forall path, st.1.2 = Some path ->
                 word path /\ Str.all no_pipe path = true) p.
Proof.
  unfold parse_command_line. intros Hparse.
  assert (Forall parsed_stage p) as Hparsed.
  { eapply parse_parts_parsed; [|exact Hparse].
    apply Forall_fmap. eapply Forall_impl; [apply split_on_pipe_no_pipe|].
    intros seg Hseg. apply all_strip, Hseg. }
  eapply Forall_impl; [exact Hparsed|].
  intros [[argv out_path] append] [Hargs Htarget]. cbn [fst snd] in *.
  split; [exact Hargs|]. intros path ->.
  destruct Htarget as (H1 & H2 & H3 & _). unfold word. auto.
Qed.

Lemma parsed_stages_have_word_targets_witness :
  Forall (fun st : stage =>
            Forall (fun arg => Str.all no_pipe arg = true) st.1.1
            /\ forall path, st.1.2 = Some path ->
                 word path /\ Str.all no_pipe path = true)
    [(["echo"; "a b"], Some "out.txt", false); (["cat"], None, false)].
Proof.
  apply (parsed_stages_have_word_targets "echo 'a b' > out.txt more | cat").
  vm_compute. reflexivity.
Defined.

Lemma isspace_not_pipe (c : ascii) :
  Str.isspace c = true -> Ascii.eqb c "|" = false.
Proof.
  intros Hc. destruct (Ascii.eqb c "|") eqn:Heq; [|reflexivity].
  apply Ascii.eqb_eq in Heq. subst c. discriminate Hc.
Qed.

Lemma blank_no_pipe (s : string) : blank s -> Str.all no_pipe s = true.
Proof.
  apply all_impl. intros c Hc. unfold no_pipe.
  rewrite (isspace_not_pipe c Hc). reflexivity.
Qed.

Lemma split_on_pipe_lead (pre s : string) :
  blank pre ->
  Str.split_on "|" (pre +:+ s)
  = match Str.split_on "|" s with
    | seg :: segs => (pre +:+ seg) :: segs
    | [] => [pre]
    end.
Proof.
  unfold blank. induction pre as [|c pre IH].
  - intros _. change (EmptyString +:+ s) with s.
    destruct (Str.split_on "|" s) eqn:Hs; [|reflexivity].
    destruct s; simpl in Hs; [discriminate|].
    destruct (Ascii.eqb a "|"); [discriminate|].
    destruct (Str.split_on "|" s); discriminate.
  - cbn [Str.all]. intros [Hc Hpre]%andb_prop.
    change (String c pre +:+ s) with (String c (pre +:+ s)).
    cbn [Str.split_on]. rewrite (isspace_not_pipe c Hc), (IH Hpre).
    destruct (Str.split_on "|" s); reflexivity.
Qed.

Lemma split_on_pipe_trail (s post : string) :
  blank post ->
  exists init last,
    Str.split_on "|" s = init ++ [last]
    /\ Str.split_on "|" (s +:+ post) = init ++ [last +:+ post].
Proof.
  intros Hpost. induction s as [|c s (init & last & Hs & Hsp)].
  - exists [], EmptyString. split; [reflexivity|].
    apply split_on_pipe_none, blank_no_pipe, Hpost.
  - change (String c s +:+ post) with (String c (s +:+ post)).
    cbn [Str.split_on]. rewrite Hs, Hsp.
    destruct (Ascii.eqb c "|").
    + exists (EmptyString :: init), last. split; reflexivity.
    + destruct init as [|seg init].
      * exists [], (String c last). split; reflexivity.
      * exists (String c seg :: init), last. split; reflexivity.
Qed.

Lemma strip_lead (pre s : string) :
  blank pre -> Str.strip (pre +:+ s) = Str.strip s.
Proof.
  unfold blank, Str.strip. induction pre as [|c pre IH]; [reflexivity|].
  cbn [Str.all]. intros [Hc Hpre]%andb_prop.
  change (String c pre +:+ s) with (String c (pre +:+ s)).
  cbn [Str.lstrip]. rewrite Hc. exact (IH Hpre).
Qed.

Lemma rstrip_app_char (s : string) (c : ascii) :
  Str.isspace c = true ->
  Str.rstrip (s +:+ String c EmptyString) = Str.rstrip s.
Proof.
  intros Hc. induction s as [|a s IH].
  - change (Str.rstrip (String c EmptyString) = EmptyString).
    cbn [Str.rstrip]. rewrite Hc. reflexivity.
  - change (String a s +:+ String c EmptyString)
      with (String a (s +:+ String c EmptyString)).
    cbn [Str.rstrip]. rewrite IH. reflexivity.
Qed.

Lemma strip_app_char (s : string) (c : ascii) :
  Str.isspace c = true ->
  Str.strip (s +:+ String c EmptyString) = Str.strip s.
Proof.
  intros Hc. unfold Str.strip. induction s as [|a s IH].
  - change (Str.rstrip (Str.lstrip (String c EmptyString)) = EmptyString).
    cbn [Str.lstrip]. rewrite Hc. reflexivity.
  - change (String a s +:+ String c EmptyString)
      with (String a (s +:+ String c EmptyString)).
    cbn [Str.lstrip]. destruct (Str.isspace a); [exact IH|].
    apply (rstrip_app_char (String a s) c Hc).
Qed.

Lemma strip_trail (s post : string) :
  blank post -> Str.strip (s +:+ post) = Str.strip s.
Proof.
  unfold blank. revert s. induction post as [|c post IH]; intros s.
  - intros _. rewrite append_empty_r. reflexivity.
  - cbn [Str.all]. intros [Hc Hpost]%andb_prop.
    change (String c post) with (String c EmptyString +:+ post).
    rewrite <- append_assoc, (IH _ Hpost). apply strip_app_char, Hc.
Qed.

(** X10: whitespace before and after the line does not count: the line
    is parsed as it is without it. *)
Theorem surrounding_whitespace_is_ignored (pre line post : string) :
  blank pre -> blank post ->
  parse_command_line (pre +:+ line +:+ post) = parse_command_line line.
Proof.
  intros Hpre Hpost. unfold parse_command_line. f_equal.
  rewrite (split_on_pipe_lead pre _ Hpre).
  destruct (split_on_pipe_trail line post Hpost) as (init & last & -> & ->).
  destruct init as [|seg init]; cbn [app map].
  - rewrite (strip_lead pre _ Hpre), (strip_trail last post Hpost).
    reflexivity.
  - rewrite (strip_lead pre _ Hpre), !map_app. cbn [map].
    rewrite (strip_trail last post Hpost). reflexivity.
Qed.

Lemma surrounding_whitespace_is_ignored_witness :
  parse_command_line
    ((" " +:+ String "009" EmptyString) +:+ "ls | grep x" +:+ newline)
  = parse_command_line "ls | grep x".
Proof.
  apply surrounding_whitespace_is_ignored; reflexivity.
Defined.

Lemma rstrip_app (a z : string) :
  Str.rstrip (a +:+ z)
  = match Str.rstrip z with
    | EmptyString => Str.rstrip a
    | _ => a +:+ Str.rstrip z
    end.
Proof.
  induction a as [|x a IH].
  - change (EmptyString +:+ z) with z.
    destruct (Str.rstrip z); reflexivity.
  - change (String x a +:+ z) with (String x (a +:+ z)).
    cbn [Str.rstrip]. rewrite IH.
    destruct (Str.rstrip z) as [|d r]; [reflexivity|].
    destruct a; reflexivity.
Qed.

Lemma split_ws_two (a b : ascii) (s : string) :
  Str.isspace a = false -> Str.isspace b = false ->
  Str.split_ws (String a (String b s))
  = match Str.split_ws (String b s) with
    | w :: ws => String a w :: ws
    | [] => [String a EmptyString]
    end.
Proof. intros Ha Hb. cbn [Str.split_ws]. rewrite Ha, Hb. reflexivity. Qed.

Lemma split_ws_first_word (target : string) (c : ascii) (r : string) :
  word target -> Str.isspace c = true ->
  Str.split_ws (target +:+ String c r) = target :: Str.split_ws r.
Proof.
  intros [Ht Hns] Hc. induction target as [|a t IH]; [discriminate|].
  cbn [Str.all] in Hns. apply andb_prop in Hns as [Ha Hns].
  unfold no_space in Ha. apply negb_true_iff in Ha.
  destruct t as [|b t].
  - change (Str.split_ws (String a (String c r))
            = String a EmptyString :: Str.split_ws r).
    cbn [Str.split_ws]. rewrite Ha, Hc. reflexivity.
  - pose proof Hns as Hb. cbn [Str.all] in Hb. apply andb_prop in Hb as [Hb _].
    unfold no_space in Hb. apply negb_true_iff in Hb.
    change (String a (String b t) +:+ String c r)
      with (String a (String b (t +:+ String c r))).
    rewrite (split_ws_two a b _ Ha Hb).
    change (String b (t +:+ String c r)) with (String b t +:+ String c r).
    rewrite (IH eq_refl Hns). reflexivity.
Qed.

(** The target is the first word behind the operator. *)
Lemma redirect_target_first_word (pre target junk : string) (c : ascii) :
  blank pre -> word target -> Str.isspace c = true ->
  redirect_target (pre +:+ target +:+ String c junk) = Ok (Some target).
Proof.
  intros Hpre Hword Hc. pose proof Hword as [Ht Hns].
  unfold redirect_target. rewrite (strip_lead pre _ Hpre).
  assert (Str.strip (target +:+ String c junk)
          = match Str.rstrip (String c junk) with
            | EmptyString => target
            | z => target +:+ z
            end) as ->.
  { unfold Str.strip. destruct target as [|a t]; [discriminate|].
    pose proof Hns as Ha. cbn [Str.all] in Ha. apply andb_prop in Ha as [Ha _].
    unfold no_space in Ha. apply negb_true_iff in Ha.
    change (String a t +:+ String c junk) with (String a (t +:+ String c junk)).
    rewrite (lstrip_tight a _ Ha).
    change (String a (t +:+ String c junk)) with (String a t +:+ String c junk).
    rewrite rstrip_app.
    rewrite (rstrip_tight (String a t)) by (apply ends_tight_no_space, Hns).
    destruct (Str.rstrip (String c junk)); reflexivity. }
  destruct (Str.rstrip (String c junk)) as [|d r] eqn:Hr.
  - rewrite Ht, (split_ws_word target Ht Hns). reflexivity.
  - destruct (rstrip_first _ _ _ Hr) as [t' [= <- _]].
    rewrite (split_ws_first_word target c r Hword Hc).
    destruct target; [discriminate|]. reflexivity.
Qed.

(** X11: behind a redirection operator, the first word is the target and
    the text after it is dropped, whatever it is in append mode; in
    truncate mode, provided the segment has no [>>]. *)
Theorem text_after_target_is_dropped (text pre target junk : string)
    (c : ascii) :
  Str.all no_gt text = true ->
  blank pre -> word target -> Str.isspace c = true ->
  parse_segment
    (text +:+ String ">" (String ">" (pre +:+ target +:+ String c junk)))
  = res_map (fun argv => (argv, Some target, true)) (Shlex.split text)
  /\ (no_gtgt (String ">" (pre +:+ target +:+ String c junk)) = true ->
      parse_segment (text +:+ String ">" (pre +:+ target +:+ String c junk))
      = res_map (fun argv => (argv, Some target, false)) (Shlex.split text)).
Proof.
  intros Hgt Hpre Hword Hc. unfold parse_segment. split.
  - rewrite (cut_gtgt text _ Hgt).
    rewrite (redirect_target_first_word pre target junk c Hpre Hword Hc).
    destruct (Shlex.split text); reflexivity.
  - intros Hgg.
    rewrite (proj1 (cut_gtgt_none _) (no_gt_no_gtgt_app text _ Hgt Hgg)).
    rewrite (cut_gt text _ Hgt).
    rewrite (redirect_target_first_word pre target junk c Hpre Hword Hc).
    destruct (Shlex.split text); reflexivity.
Qed.

Lemma text_after_target_is_dropped_witness :
  parse_segment ("echo hi " +:+ String ">" (" " +:+ "out.txt" +:+ " and more"))
  = res_map (fun argv => (argv, Some "out.txt", false))
      (Shlex.split "echo hi ").
Proof.
  apply (text_after_target_is_dropped "echo hi " " " "out.txt" "and more" " ");
    try reflexivity.
  split; reflexivity.
Defined.

(** * Properties of the handlers that work on the piped text *)

Lemma join_empty_cons (x : string) (l : list string) :
  Str.join EmptyString (x :: l) = x +:+ Str.join EmptyString l.
Proof.
  destruct l as [|y l]; [|reflexivity].
  cbn [Str.join]. rewrite append_empty_r. reflexivity.
Qed.

Lemma join_empty_app (a b : list string) :
  Str.join EmptyString (a ++ b)
  = Str.join EmptyString a +:+ Str.join EmptyString b.
Proof.
  induction a as [|x a IH]; [reflexivity|].
  change ((x :: a) ++ b) with (x :: (a ++ b)).
  rewrite !join_empty_cons, IH, append_assoc. reflexivity.
Qed.

(** The lines with their ends, put together, are the text. *)
Lemma splitlines_join_bounded (n : nat) (s : string) :
  String.length s <= n ->
  Str.join EmptyString (Py.splitlines true s) = s.
Proof.
  revert s. induction n as [|n IH]; intros s Hlen.
  - destruct s; [reflexivity | simpl in Hlen; lia].
  - destruct s as [|c s]; [reflexivity|]. simpl in Hlen.
    cbn [Py.splitlines]. destruct (Py.linebreak c).
    + destruct s as [|d s]; [reflexivity|].
      destruct (Ascii.eqb c "013" && Ascii.eqb d "010").
      * rewrite join_empty_cons, IH by (simpl in Hlen; lia). reflexivity.
      * rewrite join_empty_cons, IH by lia. reflexivity.
    + pose proof (IH s ltac:(lia)) as Hs.
      destruct (Py.splitlines true s) as [|line lines].
      * cbn in Hs. subst s. reflexivity.
      * rewrite join_empty_cons in Hs |- *. rewrite <- Hs. reflexivity.
Qed.

Lemma splitlines_join (s : string) :
  Str.join EmptyString (Py.splitlines true s) = s.
Proof. apply (splitlines_join_bounded (String.length s)). lia. Qed.

(** A stage whose builtin handler only prints. *)
Lemma run_printing_stage {X} (E : Env X) (cmd : string) (handler : builtin)
    (args : list string) (data : option string) (out : string)
    (w : world X) :
  BUILTINS !! cmd = Some handler ->
  call_builtin E handler args data (os w) = prints out (os w) ->
  run_stage E (cmd :: args, None, false) data w
  = (Continue (Some out),
     World (os w) (sys_stdout w) (terminal w) (buffers w ++ [out])
           (sys_stderr w) (executed w ++ [cmd :: args])).
Proof.
  intros Hcmd Hcall. cbn [run_stage].
  rewrite (capture_builtin E cmd handler args data _ Hcmd). cbn zeta.
  cbn [log_run os]. rewrite Hcall. unfold after_handler. cbn.
  rewrite app_nil_r. reflexivity.
Qed.

Lemma BUILTINS_head : BUILTINS !! "head" = Some builtin_head.
Proof. vm_compute. reflexivity. Qed.

Lemma BUILTINS_tail : BUILTINS !! "tail" = Some builtin_tail.
Proof. vm_compute. reflexivity. Qed.

Lemma BUILTINS_grep : BUILTINS !! "grep" = Some builtin_grep.
Proof. vm_compute. reflexivity. Qed.

(** X12: a [head] stage whose arguments name no file hands on the
    beginning of the text it receives, cut at the end of a line: the first
    [n] lines for a count [n] that is not negative, and the whole text when
    it has no more than [n] lines. *)
Theorem head_stage_hands_on_first_lines {X} (int : string -> option Z)
    (read : os_state X -> string -> res string) (E : Env X)
    (args : list string) (n : Z) (text : string) (w : world X) :
  Handler.count_and_files int args = (n, []) ->
  exists out rest,
    run_stage (Handler.env int read E) ("head" :: args, None, false)
      (Some text) w
    = (Continue (Some out),
       World (os w) (sys_stdout w) (terminal w) (buffers w ++ [out])
             (sys_stderr w) (executed w ++ ["head" :: args]))
    /\ text = out +:+ rest
    /\ ((0 <= n)%Z ->
        out = Str.join EmptyString
                (take (Z.to_nat n) (Py.splitlines true text)))
    /\ ((Z.of_nat (length (Py.splitlines true text)) <= n)%Z -> out = text).
Proof.
  intros Hcount.
  set (lines := Py.splitlines true text).
  exists (Str.join EmptyString (Py.slice_to n lines)).
  assert (exists k, Py.slice_to n lines = take k lines) as [k Hk].
  { unfold Py.slice_to. destruct (0 <=? n)%Z; eauto. }
  exists (Str.join EmptyString (drop k lines)).
  split; [|split; [|split]].
  - apply (run_printing_stage _ "head" builtin_head); [exact BUILTINS_head|].
    cbn [call_builtin Handler.env os_call Handler.call].
    unfold Handler.head. rewrite Hcount. reflexivity.
  - rewrite Hk, <- join_empty_app, take_drop. symmetry. apply splitlines_join.
  - intros Hn. unfold Py.slice_to.
    destruct (Z.leb_spec 0 n); [reflexivity | lia].
  - intros Hn. unfold Py.slice_to.
    destruct (Z.leb_spec 0 n); [|lia].
    rewrite take_ge by lia. apply splitlines_join.
Qed.

Lemma head_stage_hands_on_first_lines_witness :
  exists out rest,
    run_stage Play.env ("head" :: ["-2"], None, false)
      (Some Play.three_lines) Demo.boot
    = (Continue (Some out),
       World (os Demo.boot) (sys_stdout Demo.boot) (terminal Demo.boot)
             (buffers Demo.boot ++ [out]) (sys_stderr Demo.boot)
             (executed Demo.boot ++ ["head" :: ["-2"]]))
    /\ Play.three_lines = out +:+ rest
    /\ ((0 <= 2)%Z ->
        out = Str.join EmptyString
                (take (Z.to_nat 2) (Py.splitlines true Play.three_lines)))
    /\ ((Z.of_nat (length (Py.splitlines true Play.three_lines)) <= 2)%Z ->
        out = Play.three_lines).
Proof.
  apply (head_stage_hands_on_first_lines Play.int Play.read Demo.env ["-2"]
           2%Z Play.three_lines Demo.boot).
  reflexivity.
Defined.

(** X13: a [tail] stage whose arguments name no file hands on the end of
    the text it receives, cut at the start of a line: the last [n] lines
    for a positive count [n], and the whole text when the count is 0 or the
    text has no more than [n] lines. *)
Theorem tail_stage_hands_on_last_lines {X} (int : string -> option Z)
    (read : os_state X -> string -> res string) (E : Env X)
    (args : list string) (n : Z) (text : string) (w : world X) :
  Handler.count_and_files int args = (n, []) ->
  exists skipped out,
    run_stage (Handler.env int read E) ("tail" :: args, None, false)
      (Some text) w
    = (Continue (Some out),
       World (os w) (sys_stdout w) (terminal w) (buffers w ++ [out])
             (sys_stderr w) (executed w ++ ["tail" :: args]))
    /\ text = skipped +:+ out
    /\ ((0 < n)%Z ->
        out = Str.join EmptyString
                (drop (length (Py.splitlines true text) - Z.to_nat n)
                   (Py.splitlines true text)))
    /\ (n = 0%Z \/ (Z.of_nat (length (Py.splitlines true text)) <= n)%Z ->
        out = text).
Proof.
  intros Hcount.
  set (lines := Py.splitlines true text).
  assert (exists k, Py.slice_from (- n) lines = drop k lines) as [k Hk].
  { unfold Py.slice_from. destruct (0 <=? - n)%Z; eauto. }
  exists (Str.join EmptyString (take k lines)).
  exists (Str.join EmptyString (Py.slice_from (- n) lines)).
  split; [|split; [|split]].
  - apply (run_printing_stage _ "tail" builtin_tail); [exact BUILTINS_tail|].
    cbn [call_builtin Handler.env os_call Handler.call].
    unfold Handler.tail. rewrite Hcount. reflexivity.
  - rewrite Hk, <- join_empty_app, take_drop. symmetry. apply splitlines_join.
  - intros Hn. unfold Py.slice_from.
    destruct (Z.leb_spec 0 (- n)); [lia|].
    do 2 f_equal. lia.
  - intros Hn. unfold Py.slice_from.
    destruct (Z.leb_spec 0 (- n)).
    + replace (Z.to_nat (- n)) with 0 by lia. apply splitlines_join.
    + replace (Z.to_nat (Z.of_nat (length lines) + - n)) with 0 by lia.
      apply splitlines_join.
Qed.

Lemma tail_stage_hands_on_last_lines_witness :
  exists skipped out,
    run_stage Play.env ("tail" :: ["-0"], None, false)
      (Some Play.three_lines) Demo.boot
    = (Continue (Some out),
       World (os Demo.boot) (sys_stdout Demo.boot) (terminal Demo.boot)
             (buffers Demo.boot ++ [out]) (sys_stderr Demo.boot)
             (executed Demo.boot ++ ["tail" :: ["-0"]]))
    /\ Play.three_lines = skipped +:+ out
    /\ ((0 < 0)%Z ->
        out = Str.join EmptyString
                (drop (length (Py.splitlines true Play.three_lines)
                       - Z.to_nat 0)
                   (Py.splitlines true Play.three_lines)))
    /\ (0%Z = 0%Z
        \/ (Z.of_nat (length (Py.splitlines true Play.three_lines)) <= 0)%Z ->
        out = Play.three_lines).
Proof.
  apply (tail_stage_hands_on_last_lines Play.int Play.read Demo.env ["-0"]
           0%Z Play.three_lines Demo.boot).
  reflexivity.
Defined.

(** A line of [splitlines] has no line boundary in it. *)
Lemma splitlines_no_break_bounded (n : nat) (s : string) :
  String.length s <= n ->
  Forall (fun line => Str.all Py.no_break line = true) (Py.splitlines false s).
Proof.
  revert s. induction n as [|n IH]; intros s Hlen.
  - destruct s; [constructor | simpl in Hlen; lia].
  - destruct s as [|c s]; [constructor|]. simpl in Hlen.
    cbn [Py.splitlines]. destruct (Py.linebreak c) eqn:Hc.
    + destruct s as [|d s]; [repeat constructor|].
      destruct (Ascii.eqb c "013" && Ascii.eqb d "010").
      * constructor; [reflexivity|]. apply IH. simpl in Hlen. lia.
      * constructor; [reflexivity|]. apply IH. lia.
    + pose proof (IH s ltac:(lia)) as Hs.
      assert (Py.no_break c = true) as Hn
        by (unfold Py.no_break; rewrite Hc; reflexivity).
      destruct (Py.splitlines false s) as [|line lines].
      * repeat constructor. cbn [Str.all]. rewrite Hn. reflexivity.
      * inversion Hs as [|? ? Hline Hlines]; subst.
        constructor; [|exact Hlines]. cbn [Str.all]. rewrite Hn. exact Hline.
Qed.

Lemma splitlines_no_break (s : string) :
  Forall (fun line => Str.all Py.no_break line = true) (Py.splitlines false s).
Proof. apply (splitlines_no_break_bounded (String.length s)). lia. Qed.

(** A line followed by a newline is read back as that line. *)
Lemma splitlines_line (line rest : string) :
  Str.all Py.no_break line = true ->
  Py.splitlines false (line +:+ String "010" rest)
  = line :: Py.splitlines false rest.
Proof.
  induction line as [|c line IH].
  - intros _. change (EmptyString +:+ String "010" rest) with (String "010" rest).
    destruct rest; reflexivity.
  - cbn [Str.all]. intros [Hc Hline]%andb_prop.
    unfold Py.no_break in Hc. apply negb_true_iff in Hc.
    change (String c line +:+ String "010" rest)
      with (String c (line +:+ String "010" rest)).
    cbn [Py.splitlines]. rewrite Hc, (IH Hline). reflexivity.
Qed.

Lemma splitlines_printed_lines (lines : list string) :
  Forall (fun line => Str.all Py.no_break line = true) lines ->
  Py.splitlines false
    (Str.join EmptyString (map (fun line => line +:+ newline) lines))
  = lines.
Proof.
  induction 1 as [|line lines Hline _ IH]; [reflexivity|].
  cbn [map]. rewrite join_empty_cons. unfold newline at 1.
  rewrite append_assoc.
  change (String "010" EmptyString +:+ ?x) with (String "010" x).
  rewrite (splitlines_line line _ Hline), IH. reflexivity.
Qed.

Lemma grep_text_lines (pattern text : string) :
  Py.splitlines false (Handler.grep_text pattern text)
  = filter (fun line => Str.contains pattern line = true)
      (Py.splitlines false text).
Proof.
  unfold Handler.grep_text. apply splitlines_printed_lines.
  apply Forall_forall. intros line [_ Hline]%list_elem_of_filter.
  exact (proj1 (Forall_forall _ _) (splitlines_no_break text) line Hline).
Qed.

(** X14: a [grep] stage with a pattern and no file hands on the lines of
    the text it receives that contain the pattern, each ended by a newline:
    every line of what it hands on contains the pattern, and the same stage
    once more changes nothing. *)
Theorem grep_stage_keeps_matching_lines {X} (int : string -> option Z)
    (read : os_state X -> string -> res string) (E : Env X)
    (pattern text : string) (w : world X) :
  run_stage (Handler.env int read E) (["grep"; pattern], None, false)
    (Some text) w
  = (Continue (Some (Handler.grep_text pattern text)),
     World (os w) (sys_stdout w) (terminal w)
           (buffers w ++ [Handler.grep_text pattern text])
           (sys_stderr w) (executed w ++ [["grep"; pattern]]))
  /\ Forall (fun line => Str.contains pattern line = true)
       (Py.splitlines false (Handler.grep_text pattern text))
  /\ Handler.grep_text pattern (Handler.grep_text pattern text)
     = Handler.grep_text pattern text.
Proof.
  split; [|split].
  - apply (run_printing_stage _ "grep" builtin_grep); [exact BUILTINS_grep|].
    reflexivity.
  - rewrite grep_text_lines. apply Forall_forall.
    intros line [Hline _]%list_elem_of_filter. exact Hline.
  - unfold Handler.grep_text at 1. rewrite grep_text_lines.
    unfold Handler.grep_text. do 2 f_equal.
    apply list_filter_filter_l. auto.
Qed.

(** X15: [head] and [tail] read the count from the first argument only.
    With the count as an argument of its own, after [-n], the count stays
    10 and the number is taken for a file name, so the piped text is not
    what is shown. *)
Theorem count_after_n_is_a_file_name {X} (int : string -> option Z)
    (E : Env X) (count : string) (more : list string) (stdin : option string)
    (o : os_state X) :
  int EmptyString = None ->
  Handler.count_and_files int ("-n" :: count :: more) = (10%Z, count :: more)
  /\ Handler.head int E ("-n" :: count :: more) stdin o
     = os_call E builtin_head ("-n" :: count :: more) stdin o
  /\ Handler.tail int E ("-n" :: count :: more) stdin o
     = os_call E builtin_tail ("-n" :: count :: more) stdin o.
Proof.
  intros Hint.
  assert (Handler.count_and_files int ("-n" :: count :: more)
          = (10%Z, count :: more)) as Hcount.
  { unfold Handler.count_and_files.
    change (Py.startswith "-" "-n") with true.
    change (Py.lstrip_chars "-n" "-n") with EmptyString.
    cbv iota. rewrite Hint. reflexivity. }
  split; [exact Hcount|].
  unfold Handler.head, Handler.tail. rewrite Hcount. split; reflexivity.
Qed.

Lemma count_after_n_is_a_file_name_witness :
  Handler.count_and_files Play.int ("-n" :: "2" :: []) = (10%Z, "2" :: []).
Proof.
  apply (proj1 (count_after_n_is_a_file_name Play.int Demo.env "2" []
                  (Some Play.three_lines) (os Demo.boot) eq_refl)).
Defined.

Lemma cat_files_shown {X} (read : os_state X -> string -> res string)
    (o : os_state X) (args : list string) (acc : string) :
  Forall (fun path => forall e, read o path = Raise e -> is_Exception e = true)
    args ->
  Handler.cat_files read o args acc
  = prints (acc +:+ Str.join EmptyString (map (Handler.shown read o) args)) o.
Proof.
  intros Hargs. revert acc.
  induction Hargs as [|path args Hpath _ IH]; intros acc.
  - cbn. rewrite append_empty_r. reflexivity.
  - cbn [Handler.cat_files map]. rewrite join_empty_cons.
    unfold Handler.read_file_text, Handler.shown at 1.
    destruct (read o path) as [text|e] eqn:Hread.
    + rewrite IH, append_assoc. reflexivity.
    + rewrite (Hpath e eq_refl), IH, append_assoc. reflexivity.
Qed.

(** X16: [cat] with file arguments, or without piped text, prints what
    the files show, one after the other; for a file whose reading raises an
    [Exception] it prints [Error reading file: <message>] in the same
    place, on standard output: it emits no diagnostic and raises nothing. *)
Theorem cat_prints_read_errors {X} (read : os_state X -> string -> res string)
    (args : list string) (stdin : option string) (o : os_state X) :
  args <> [] \/ stdin = None ->
  Forall (fun path => forall e, read o path = Raise e -> is_Exception e = true)
    args ->
  Handler.cat read args stdin o
  = prints (Str.join EmptyString (map (Handler.shown read o) args)) o.
Proof.
  intros Hbranch Hargs. unfold Handler.cat.
  destruct args as [|path args], stdin as [text|];
    try (rewrite (cat_files_shown read o _ EmptyString Hargs); reflexivity).
  destruct Hbranch as [H|H]; [destruct (H eq_refl) | discriminate H].
Qed.

Lemma cat_prints_read_errors_witness :
  Handler.cat Play.read ["missing.txt"] None (os Demo.boot)
  = prints
      (Str.join EmptyString
         (map (Handler.shown Play.read (os Demo.boot)) ["missing.txt"]))
      (os Demo.boot).
Proof.
  apply cat_prints_read_errors.
  - left. discriminate.
  - repeat constructor. intros e [= <-]. reflexivity.
Defined.



(** X18: the line [help], with whitespace around it or not, runs nothing:
    it writes two lines on the terminal, and every name of the registry
    occurs in them. *)
Theorem help_lists_every_builtin {X} (E : Env X) (line : string)
    (w : world X) :
  Str.strip line = "help" ->
  sys_stdout w = Terminal ->
  exists text,
    main_step E line w
    = (NextLine,
       World (os w) Terminal (terminal w +:+ text) (buffers w)
             (sys_stderr w) (executed w))
    /\ forall name handler,
         BUILTINS !! name = Some handler -> Str.contains name text = true.
Proof.
  intros Hline Hterm.
  exists (nth 0 help_lines EmptyString +:+ nth 1 help_lines EmptyString).
  split.
  - destruct w as [o k t b d x]. cbn in Hterm. subst k.
    unfold main_step. rewrite Hline. cbn [Str.truthy negb].
    rewrite String.eqb_refl. unfold help_lines.
    cbn [fold_left nth]. unfold write_stdout.
    cbn [sys_stdout os terminal buffers sys_stderr executed].
    rewrite append_assoc. reflexivity.
  - intros name handler. unfold BUILTINS.
    intros Hin%elem_of_list_to_map_2.
    repeat (apply elem_of_cons in Hin as [Hin|Hin];
            [injection Hin as -> _; vm_compute; reflexivity|]).
    apply elem_of_nil in Hin. destruct Hin.
Qed.

Lemma help_lists_every_builtin_witness :
  exists text,
    main_step Demo.env "  help " Demo.boot
    = (NextLine,
       World (os Demo.boot) Terminal (terminal Demo.boot +:+ text)
             (buffers Demo.boot) (sys_stderr Demo.boot) (executed Demo.boot))
    /\ forall name handler,
         BUILTINS !! name = Some handler -> Str.contains name text = true.
Proof.
  apply (help_lists_every_builtin Demo.env "  help " Demo.boot); reflexivity.
Defined.

(** X19: when a stage is reached whose builtin handler is interrupted from
    the keyboard, [KeyboardInterrupt] leaves [run_pipeline] with
    [sys.stdout] still bound to the buffer of that stage: neither handler
    of the [try] binds it back. *)
Theorem interrupted_builtin_leaves_stdout_captured {X} (E : Env X)
    (pre post : list stage) (cmd : string) (handler : builtin)
    (args : list string) (out_path : option string) (append : bool)
    (data : option string) (w w1 : world X) :
  BUILTINS !! cmd = Some handler ->
  run_stages E pre None w = (Continue data, w1) ->
  raised (call_builtin E handler args data (os w1)) = Some KeyboardInterrupt ->
  fst (run_pipeline E (pre ++ (cmd :: args, out_path, append) :: post) w)
  = Raised KeyboardInterrupt
  /\ sys_stdout
       (snd (run_pipeline E (pre ++ (cmd :: args, out_path, append) :: post)
               w))
     = StringIO (length (buffers w1)).
Proof.
  intros Hcmd Hpre Hraised. unfold run_pipeline.
  rewrite run_stages_app, Hpre. cbn [run_stages run_stage].
  rewrite (capture_builtin E cmd handler args data _ Hcmd). cbn zeta.
  cbn [log_run os]. rewrite Hraised. split; reflexivity.
Qed.

Lemma interrupted_builtin_leaves_stdout_captured_witness :
  fst (run_pipeline Demo.env
         ([] ++ (["find"; "/"], None, false) :: [(["cat"], None, false)])
         Demo.boot)
  = Raised KeyboardInterrupt
  /\ sys_stdout
       (snd (run_pipeline Demo.env
               ([] ++ (["find"; "/"], None, false) :: [(["cat"], None, false)])
               Demo.boot))
     = StringIO (length (buffers Demo.boot)).
Proof.
  apply (interrupted_builtin_leaves_stdout_captured Demo.env []
           [(["cat"], None, false)] "find" builtin_find ["/"] None false None
           Demo.boot Demo.boot).
  - vm_compute. reflexivity.
  - reflexivity.
  - reflexivity.
Defined.

Lemma capture_sink {X} (E : Env X) (cmd : string) (args : list string)
    (data : option string) (w : world X) :
  sys_stdout (snd (capture E cmd args data w)) = sys_stdout w
  \/ exists id, sys_stdout (snd (capture E cmd args data w)) = StringIO id.
Proof.
  destruct (BUILTINS !! cmd) as [handler|] eqn:Hcmd.
  - rewrite (capture_builtin E cmd handler args data w Hcmd). cbn zeta.
    destruct (raised (call_builtin E handler args data (os w))) as [e|];
      [|left; reflexivity].
    destruct e; cbn; eauto.
  - left. unfold capture. rewrite Hcmd.
    destruct (popen E (cmd :: args) data (os w)) as [[[out_text err]|e] o].
    + destruct (Str.truthy err); reflexivity.
    + destruct e; reflexivity.
Qed.

Lemma run_stages_sink {X} (E : Env X) (p : list stage)
    (data : option string) (w : world X) :
  sys_stdout (snd (run_stages E p data w)) = sys_stdout w
  \/ exists id, sys_stdout (snd (run_stages E p data w)) = StringIO id.
Proof.
  revert data w. induction p as [|st p IH]; intros data w; [left; reflexivity|].
  cbn [run_stages].
  assert (sys_stdout (snd (run_stage E st data w)) = sys_stdout w
          \/ exists id, sys_stdout (snd (run_stage E st data w)) = StringIO id)
    as Hst.
  { destruct st as [[argv out_path] append]. destruct argv as [|cmd args];
      [left; reflexivity|]. cbn [run_stage].
    pose proof (capture_sink E cmd args data (log_run (cmd :: args) w)) as Hc.
    destruct (capture E cmd args data (log_run (cmd :: args) w))
      as [[out_text|c] w1]; cbn [fst snd] in *; [|exact Hc].
    destruct (deliver_frame E out_path append out_text w1) as (_ & _ & _ & ->).
    exact Hc. }
  destruct (run_stage E st data w) as [[data1| |e] w1]; cbn [fst snd] in *;
    try exact Hst.
  destruct (IH data1 w1) as [-> | Hid]; [exact Hst | right; exact Hid].
Qed.

(** X20: once [sys.stdout] is bound to a buffer when a turn of the loop
    of [main] starts, it is bound to a buffer when the turn ends, whatever
    the line: no turn binds it to the terminal again. *)
Theorem captured_stdout_stays_captured {X} (E : Env X) (line : string)
    (w : world X) (id : nat) :
  sys_stdout w = StringIO id ->
  exists id', sys_stdout (snd (main_step E line w)) = StringIO id'.
Proof.
  intros Hsink.
  assert (forall text (v : world X),
             (exists k, sys_stdout v = StringIO k) ->
             exists k, sys_stdout (write_stdout text v) = StringIO k)
    as Hwrite.
  { intros text v [k Hk]. unfold write_stdout. rewrite Hk. cbn. eauto. }
  unfold main_step.
  destruct (Str.truthy (Str.strip line)); cbn [negb]; [|cbn; eauto].
  destruct (String.eqb (Str.strip line) "help").
  - unfold help_lines. cbn [fold_left snd]. apply Hwrite, Hwrite. eauto.
  - destruct (parse_command_line line) as [p|e] eqn:Hparse.
    + assert (exists k, sys_stdout (snd (run_pipeline E p w)) = StringIO k)
        as Hout.
      { unfold run_pipeline.
        pose proof (run_stages_sink E p None w) as Hk.
        rewrite Hsink in Hk.
        assert (exists k, sys_stdout (snd (run_stages E p None w)) = StringIO k)
          as Hk' by (destruct Hk; eauto).
        destruct (run_stages E p None w) as [[[text|]| |e] w1];
          cbn [fst snd] in *; auto.
        destruct (Str.truthy text); [|auto].
        apply Hwrite, Hk'. }
      destruct (run_pipeline E p w) as [[|e] w1]; cbn [fst snd] in *; [auto|].
      destruct e; cbn [snd]; auto.
    + destruct e; cbn [snd]; eauto.
Qed.

Lemma captured_stdout_stays_captured_witness :
  exists id',
    sys_stdout
      (snd (main_step Demo.env "pwd"
              (snd (main_step Demo.env "find /" Demo.boot))))
    = StringIO id'.
Proof.
  apply (captured_stdout_stays_captured Demo.env "pwd"
           (snd (main_step Demo.env "find /" Demo.boot)) 0).
  vm_compute. reflexivity.
Defined.

(** X21: a builtin that needs arguments and gets too few of them - [grep],
    [rm], [mkdir], [rmdir] and [touch] without any, [cp] and [mv] with
    fewer than two - emits one diagnostic that starts with its name, prints
    nothing, leaves the operating system alone, and the pipeline goes on
    with the empty text. *)
Theorem builtin_with_too_few_arguments_complains {X} (E : Env X)
    (cmd : string) (handler : builtin) (args : list string)
    (data : option string) (w : world X) :
  BUILTINS !! cmd = Some handler ->
  (In handler [builtin_grep; builtin_rm; builtin_mkdir; builtin_rmdir;
               builtin_touch] /\ args = [])
  \/ (In handler [builtin_cp; builtin_mv] /\ length args < 2) ->
  exists message,
    run_stage E (cmd :: args, None, false) data w
    = (Continue (Some EmptyString),
       World (os w) (sys_stdout w) (terminal w) (buffers w ++ [EmptyString])
             (sys_stderr w ++ [cmd +:+ ": missing " +:+ message])
             (executed w ++ [cmd :: args])).
Proof.
  intros Hcmd Hfew.
  assert (exists message,
             call_builtin E handler args data (os w)
             = complains (cmd +:+ ": missing " +:+ message) (os w)) as [m Hm].
  { revert Hcmd. unfold BUILTINS. intros Hin%elem_of_list_to_map_2.
    destruct Hfew as [[Hh ->] | [Hh Hlen]].
    - repeat (apply elem_of_cons in Hin as [Hin|Hin];
              [injection Hin as -> ->;
               first [ eexists; reflexivity
                     | exfalso; cbn in Hh; intuition discriminate ]
              |]).
      apply elem_of_nil in Hin. destruct Hin.
    - assert ((length args <? 2) = true) as Hlt by (apply Nat.ltb_lt; exact Hlen).
      repeat (apply elem_of_cons in Hin as [Hin|Hin];
              [injection Hin as -> ->;
               first [ eexists; cbn [call_builtin]; rewrite Hlt; reflexivity
                     | exfalso; cbn in Hh; intuition discriminate ]
              |]).
      apply elem_of_nil in Hin. destruct Hin. }
  exists m. cbn [run_stage].
  rewrite (capture_builtin E cmd handler args data _ Hcmd). cbn zeta.
  cbn [log_run os]. rewrite Hm. reflexivity.
Qed.

Lemma builtin_with_too_few_arguments_complains_witness :
  exists message,
    run_stage Demo.env ("cp" :: ["only"], None, false) None Demo.boot
    = (Continue (Some EmptyString),
       World (os Demo.boot) (sys_stdout Demo.boot) (terminal Demo.boot)
             (buffers Demo.boot ++ [EmptyString])
             (sys_stderr Demo.boot ++ ["cp" +:+ ": missing " +:+ message])
             (executed Demo.boot ++ ["cp" :: ["only"]])).
Proof.
  apply (builtin_with_too_few_arguments_complains Demo.env "cp" builtin_cp
           ["only"] None Demo.boot).
  - vm_compute. reflexivity.
  - right. split; [cbn; tauto | cbn; lia].
Defined.
